(** * The filter tree of usdb_syncer: rows, toggling and song matching

    A shallow embedding of [src/usdb_syncer/gui/search_tree/item.py] together
    with the song meta data of [src/usdb_syncer/usdb_song.py].

    Python objects live in a heap (an arena indexed by object identity), so
    that the parent back references and the in-place mutation performed by
    the toggle methods are modelled as the code performs them.  Methods are
    computations in a state-and-exception monad over that heap. *)

From Stdlib Require Import ZArith Lia.
From stdpp Require Import base option list gmap strings pretty.

(** ** Exceptions and fallible pure results *)

(** The Python exceptions the modelled code can raise.  [InvalidRef] is
    not one of them: it marks a reference to an object that the heap does
    not hold, which no Python program can produce. *)
Inductive exn : Type :=
| IndexError
| AttributeError
| TypeError
| InvalidRef.

Inductive result (A : Type) : Type :=
| Ok (a : A)
| Err (e : exn).
Arguments Ok {A} a.
Arguments Err {A} e.

(** ** Song meta data ([usdb_song.py]) *)

Module Song.

(** [UsdbSong]: an [attrs.frozen] class; [SongId] wraps an integer. *)
Record UsdbSong : Type := mkUsdbSong {
  song_id : Z;
  artist : string;
  title : string;
  language : string;
  edition : string;
  golden_notes : bool;
  rating : Z;
  views : Z;
}.

(** [SongData] is declared outside the files at hand; the filter tree only
    reads its [data] attribute, which holds the [UsdbSong]. *)
Record SongData : Type := mkSongData { data : UsdbSong }.

End Song.

(** ** Predicates on songs ([SongMatch] and its implementations) *)

Module Match.
Import Song.

(** [RatingVariant]: an enum whose values are [None], 1, ..., 5. *)
Inductive RatingVariant : Type := R_NONE | R_1 | R_2 | R_3 | R_4 | R_5.

Definition RatingVariant_value (r : RatingVariant) : option Z :=
  match r with
  | R_NONE => None
  | R_1 => Some 1%Z
  | R_2 => Some 2%Z
  | R_3 => Some 3%Z
  | R_4 => Some 4%Z
  | R_5 => Some 5%Z
  end.

(** [GoldenNotesVariant]: [NO = False], [YES = True]. *)
Inductive GoldenNotesVariant : Type := NO | YES.

Definition GoldenNotesVariant_value (g : GoldenNotesVariant) : bool :=
  match g with NO => false | YES => true end.

(** [ViewsVariant]: pairs [(lo, hi)] where [hi] may be [None]. *)
Inductive ViewsVariant : Type := V_0 | V_100 | V_200 | V_300 | V_400 | V_500.

Definition ViewsVariant_value (v : ViewsVariant) : Z * option Z :=
  match v with
  | V_0 => (0, Some 100)%Z
  | V_100 => (100, Some 200)%Z
  | V_200 => (200, Some 300)%Z
  | V_300 => (300, Some 400)%Z
  | V_400 => (400, Some 500)%Z
  | V_500 => (500%Z, None)
  end.

Definition all_ViewsVariant : list ViewsVariant :=
  [V_0; V_100; V_200; V_300; V_400; V_500].

(** Python's [==] between a value that is [None] or an integer and an
    integer: [None == n] is [False] for every integer [n]. *)
Definition py_eq_int (v : option Z) (n : Z) : bool :=
  match v with
  | None => false
  | Some m => (m =? n)%Z
  end.

(** Python's [<] of an integer against a value that is [None] or an
    integer: ordering against [None] raises [TypeError]. *)
Definition py_lt_int (n : Z) (v : option Z) : result bool :=
  match v with
  | None => Err TypeError
  | Some m => Ok (n <? m)%Z
  end.

(** [RatingVariant.matches_song]: [self.value == song.data.rating]. *)
Definition RatingVariant_matches_song (self : RatingVariant) (song : SongData)
  : result bool :=
  Ok (py_eq_int (RatingVariant_value self) (rating (data song))).

(** [GoldenNotesVariant.matches_song]:
    [self.value is song.data.golden_notes]. *)
Definition GoldenNotesVariant_matches_song (self : GoldenNotesVariant)
    (song : SongData) : result bool :=
  Ok (Bool.eqb (GoldenNotesVariant_value self) (golden_notes (data song))).

(** The body of [ViewsVariant.matches_song] on the enum member's value:
    [value[0] <= views and (value[1] is None or views < value[1])], with
    Python's short-circuit evaluation of [and] and [or]. *)
Definition views_in_bucket (value : Z * option Z) (song : SongData)
  : result bool :=
  if (value.1 <=? views (data song))%Z then
    if bool_decide (value.2 = None) then Ok true
    else py_lt_int (views (data song)) value.2
  else Ok false.

Definition ViewsVariant_matches_song (self : ViewsVariant) (song : SongData)
  : result bool :=
  views_in_bucket (ViewsVariant_value self) song.

(** The implementations of the [SongMatch] interface. *)
Inductive SongMatch : Type :=
| SongArtistMatch (s : string)
| SongTitleMatch (s : string)
| SongEditionMatch (s : string)
| SongLanguageMatch (s : string)
| Rating (r : RatingVariant)
| GoldenNotes (g : GoldenNotesVariant)
| Views (v : ViewsVariant).

(** [matches_song], dispatched on the implementing class. *)
Definition matches_song (self : SongMatch) (song : SongData) : result bool :=
  match self with
  | SongArtistMatch s => Ok (String.eqb s (artist (data song)))
  | SongTitleMatch s => Ok (String.eqb s (title (data song)))
  | SongEditionMatch s => Ok (String.eqb s (edition (data song)))
  | SongLanguageMatch s => Ok (String.eqb s (language (data song)))
  | Rating r => RatingVariant_matches_song r song
  | GoldenNotes g => GoldenNotesVariant_matches_song g song
  | Views v => ViewsVariant_matches_song v song
  end.

(** A song with the given rating and number of views. *)
Definition song_with (r v : Z) : SongData :=
  mkSongData (mkUsdbSong 123 "Foo" "Bar" "Esperanto" "" true r v).

End Match.

(** ** The rows of the tree ([TreeItem] and its subclasses) *)

Module Tree.
Import Song Match.

(** [Filter]: the kinds of filters, in declaration order. *)
Inductive Filter : Type :=
| ARTIST | TITLE | EDITION | LANGUAGE | GOLDEN_NOTES | RATING | VIEWS.

Definition all_Filter : list Filter :=
  [ARTIST; TITLE; EDITION; LANGUAGE; GOLDEN_NOTES; RATING; VIEWS].

(** [Filter.static_variants]: the members of the variant enum, in
    declaration order, or nothing for the filters fed from the songs. *)
Definition static_variants (self : Filter) : list SongMatch :=
  match self with
  | ARTIST | TITLE | EDITION | LANGUAGE => []
  | GOLDEN_NOTES => GoldenNotes <$> [NO; YES]
  | RATING => Rating <$> [R_NONE; R_1; R_2; R_3; R_4; R_5]
  | VIEWS => Views <$> all_ViewsVariant
  end.

(** Object identities: positions in the heap. *)
Abbreviation oid := nat (only parsing).

(** The class of a row together with its [data] attribute, whose type the
    class fixes: [None] for [RootItem], a [Filter] for [FilterItem], a
    [SongMatch] for [VariantItem]. *)
Inductive klass : Type :=
| RootItem
| FilterItem (data : Filter)
| VariantItem (data : SongMatch).

Definition is_filter (k : klass) : bool :=
  match k with FilterItem _ => true | _ => false end.

Definition is_variant (k : klass) : bool :=
  match k with VariantItem _ => true | _ => false end.

Definition is_root (k : klass) : bool :=
  match k with RootItem => true | _ => false end.

(** The attributes of a row.  [checked_children] exists on [FilterItem]
    only; the methods below refuse to read it on any other class. *)
Record TreeItem : Type := mkTreeItem {
  cls : klass;
  parent : option oid;
  row_in_parent : Z;
  children : list oid;
  checked : bool;
  checkable : bool;
  checked_children : gset Z;
}.

Definition with_parent (p : option oid) (x : TreeItem) : TreeItem :=
  mkTreeItem (cls x) p (row_in_parent x) (children x) (checked x)
             (checkable x) (checked_children x).

Definition with_row_in_parent (r : Z) (x : TreeItem) : TreeItem :=
  mkTreeItem (cls x) (parent x) r (children x) (checked x)
             (checkable x) (checked_children x).

Definition with_children (cs : list oid) (x : TreeItem) : TreeItem :=
  mkTreeItem (cls x) (parent x) (row_in_parent x) cs (checked x)
             (checkable x) (checked_children x).

Definition with_checked (b : bool) (x : TreeItem) : TreeItem :=
  mkTreeItem (cls x) (parent x) (row_in_parent x) (children x) b
             (checkable x) (checked_children x).

Definition with_checkable (b : bool) (x : TreeItem) : TreeItem :=
  mkTreeItem (cls x) (parent x) (row_in_parent x) (children x) (checked x)
             b (checked_children x).

Definition with_checked_children (s : gset Z) (x : TreeItem) : TreeItem :=
  mkTreeItem (cls x) (parent x) (row_in_parent x) (children x) (checked x)
             (checkable x) s.

Abbreviation heap := (list TreeItem) (only parsing).

(** *** The monad of methods: a heap threaded through, or an exception
    together with the heap as it was when the exception was raised. *)

Inductive outcome (A : Type) : Type :=
| Ret (a : A) (h : heap)
| Raise (e : exn) (h : heap).
Arguments Ret {A} a h.
Arguments Raise {A} e h.

Definition final_heap {A} (r : outcome A) : heap :=
  match r with Ret _ h => h | Raise _ h => h end.

Definition M (A : Type) : Type := heap → outcome A.

#[global] Instance M_ret : MRet M := λ A a h, Ret a h.

#[global] Instance M_bind : MBind M := λ A B k m h,
  match m h with
  | Ret a h' => k a h'
  | Raise e h' => Raise e h'
  end.

Definition raise {A} (e : exn) : M A := λ h, Raise e h.

Definition lift {A} (r : result A) : M A :=
  match r with Ok a => mret a | Err e => raise e end.

(** Reading the object behind a reference. *)
Definition load (o : oid) : M TreeItem := λ h,
  match h !! o with
  | Some x => Ret x h
  | None => Raise InvalidRef h
  end.

(** An attribute assignment [o.attr = v], as an update of the object. *)
Definition update (o : oid) (f : TreeItem → TreeItem) : M unit := λ h,
  match h !! o with
  | Some _ => Ret () (alter f o h)
  | None => Raise InvalidRef h
  end.

(** Object creation: the new object gets the next free identity. *)
Definition alloc (x : TreeItem) : M oid := λ h, Ret (length h) (h ++ [x]).

(** A [for] loop over a tuple. *)
Fixpoint for_each {A} (l : list A) (body : A → M unit) : M unit :=
  match l with
  | [] => mret ()
  | a :: l' => body a ≫= λ _, for_each l' body
  end.

(** [any(body(i) for i in l)]: stops at the first true element. *)
Fixpoint any_of {A} (l : list A) (body : A → M bool) : M bool :=
  match l with
  | [] => mret false
  | a :: l' => b ← body a; if b : bool then mret true else any_of l' body
  end.

(** Subscripting a tuple with a Python integer: negative indices count
    from the end, anything out of range raises [IndexError]. *)
Definition py_getitem {A} (l : list A) (i : Z) : result A :=
  let n := Z.of_nat (length l) in
  let j := if (i <? 0)%Z then (n + i)%Z else i in
  if ((0 <=? j) && (j <? n))%Z
  then match l !! Z.to_nat j with Some a => Ok a | None => Err IndexError end
  else Err IndexError.

(** Method lookup on [FilterItem]: the methods and [checked_children]
    exist on that class only. *)
Definition as_filter (self : oid) : M TreeItem :=
  x ← load self;
  if is_filter (cls x) then mret x else raise AttributeError.

(** *** Constructors (attrs-generated [__init__]) *)

Definition new_RootItem : M oid :=
  alloc (mkTreeItem RootItem None 0 [] false false ∅).

Definition new_FilterItem (data : Filter) (parent : oid) : M oid :=
  alloc (mkTreeItem (FilterItem data) (Some parent) 0 [] false false ∅).

Definition new_VariantItem (data : SongMatch) (parent : oid) : M oid :=
  alloc (mkTreeItem (VariantItem data) (Some parent) 0 [] false true ∅).

(** Which classes define [add_child]: [RootItem] and [FilterItem]. *)
Definition has_add_child (k : klass) : bool := is_root k || is_filter k.

(** [RootItem.add_child] and [FilterItem.add_child] (the same body).  On
    a receiver of any other class the method lookup raises
    [AttributeError] before anything is written. *)
Definition add_child (self child : oid) : M unit :=
  s ← load self;
  if has_add_child (cls s) then
    update child (with_parent (Some self)) ≫= λ _,
    x ← load self;
    update child (with_row_in_parent (Z.of_nat (length (children x))))
      ≫= λ _,
    x ← load self;
    update self (with_children (children x ++ [child]))
  else raise AttributeError.

(** *** Methods of [FilterItem] and [VariantItem] *)

(** [VariantItem.accepts_song]: [self.data.matches_song(song)]. *)
Definition VariantItem_accepts_song (self : oid) (song : SongData) : M bool :=
  x ← load self;
  match cls x with
  | VariantItem data => lift (matches_song data song)
  | _ => raise AttributeError
  end.

(** [FilterItem.accepts_song]:
    [not self.checked_children or any(self.children[i].accepts_song(song)
    for i in self.checked_children)].  Python does not fix the order in
    which a set is visited; [visit] lists the members of a set in the
    order of the visit. *)
Definition FilterItem_accepts_song_by (visit : gset Z → list Z) (self : oid)
    (song : SongData) : M bool :=
  x ← as_filter self;
  if bool_decide (checked_children x = ∅) then mret true
  else any_of (visit (checked_children x)) (λ i,
         y ← load self;
         c ← lift (py_getitem (children y) i);
         VariantItem_accepts_song c song).

(** [FilterItem.accepts_song] with the set visited in the order of
    [elements]. *)
Definition FilterItem_accepts_song (self : oid) (song : SongData) : M bool :=
  FilterItem_accepts_song_by elements self song.

(** [FilterItem.uncheck_children]. *)
Definition uncheck_children (self : oid) : M unit :=
  x ← as_filter self;
  for_each (children x) (λ child, update child (with_checked false)) ≫= λ _,
  update self (with_checked_children ∅) ≫= λ _,
  update self (with_checkable false) ≫= λ _,
  update self (with_checked false).

(** [FilterItem.check_child].  The chained assignment stores [True] into
    its targets from left to right; the subscript is evaluated last. *)
Definition check_child (self : oid) (child : Z) : M unit :=
  uncheck_children self ≫= λ _,
  update self (λ x, with_checked_children ({[child]} ∪ checked_children x) x)
    ≫= λ _,
  update self (with_checkable true) ≫= λ _,
  update self (with_checked true) ≫= λ _,
  x ← load self;
  c ← lift (py_getitem (children x) child);
  update c (with_checked true).

(** [TreeItem.toggle_checked]: [pass]. *)
Definition TreeItem_toggle_checked (self : oid) : M unit := mret ().

(** [FilterItem.toggle_checked]. *)
Definition FilterItem_toggle_checked (self : oid) : M unit :=
  x ← load self;
  if checked x then uncheck_children self else mret ().

(** [VariantItem.toggle_checked].  A [parent] that is [None] has no
    methods. *)
Definition VariantItem_toggle_checked (self : oid) : M unit :=
  x ← load self;
  match parent x with
  | None => raise AttributeError
  | Some p =>
      if checked x then uncheck_children p
      else check_child p (row_in_parent x)
  end.

(** [toggle_checked], dispatched on the class of the receiver. *)
Definition toggle_checked (self : oid) : M unit :=
  x ← load self;
  match cls x with
  | RootItem => TreeItem_toggle_checked self
  | FilterItem _ => FilterItem_toggle_checked self
  | VariantItem _ => VariantItem_toggle_checked self
  end.

(** [all(body(a) for a in l)]: stops at the first false element. *)
Fixpoint all_of {A} (l : list A) (body : A → M bool) : M bool :=
  match l with
  | [] => mret true
  | a :: l' => b ← body a; if b : bool then all_of l' body else mret false
  end.

(** Modelled from the spec: the query over the whole tree (§4.5) is not
    among the source files; it is "the conjunction over all FilterNodes of
    filter_accepts(node, song)", the filter nodes being the children of the
    root. *)
Definition accepts (root : oid) (song : SongData) : M bool :=
  x ← load root;
  all_of (children x) (λ f, FilterItem_accepts_song f song).

(** *** Building a tree *)

(** Modelled from the spec: the tree builder is not among the source files.
    Following §4.3, one [VariantItem] per predicate of a filter kind is
    created and appended to the filter with [FilterItem.add_child]. *)
Definition add_variants (item : oid) (variants : list SongMatch) : M unit :=
  for_each variants (λ m, v ← new_VariantItem m item; add_child item v).

(** Modelled from the spec: the tree builder is not among the source files.
    Following §4.3, a [FilterItem] is created for a filter kind and
    appended to the root with [RootItem.add_child], then given its
    variants. *)
Definition add_filter (root : oid) (entry : Filter * list SongMatch)
  : M unit :=
  item ← new_FilterItem entry.1 root;
  add_child root item ≫= λ _,
  add_variants item entry.2.

(** Modelled from the spec: the tree builder is not among the source files.
    Following §4.3, it creates the root and then one filter per entry of
    the catalog, in order. *)
Definition build_tree (catalog : list (Filter * list SongMatch)) : M oid :=
  root ← new_RootItem;
  for_each catalog (add_filter root) ≫= λ _,
  mret root.

(** The object [x] once [add_child] has hung it below [p], whose
    attributes were [po], and the heap [h] once [x] has been created and
    hung below [p]. *)
Definition attached (p : oid) (po x : TreeItem) : TreeItem :=
  with_row_in_parent (Z.of_nat (length (children po)))
    (with_parent (Some p) x).

Definition attach (h : heap) (p : oid) (po x : TreeItem) : heap :=
  alter (with_children (children po ++ [length h])) p
        (h ++ [attached p po x]).

(** Modelled from the spec: the variants of the filters fed from the song
    collection (§3, §6) are supplied by the caller as strings per filter
    kind. *)
Definition dynamic_variants (f : Filter) (values : list string)
  : list SongMatch :=
  match f with
  | ARTIST => SongArtistMatch <$> values
  | TITLE => SongTitleMatch <$> values
  | EDITION => SongEditionMatch <$> values
  | LANGUAGE => SongLanguageMatch <$> values
  | GOLDEN_NOTES | RATING | VIEWS => []
  end.

Definition catalog (provider : Filter → list string)
  : list (Filter * list SongMatch) :=
  (λ f, (f, static_variants f ++ dynamic_variants f (provider f)))
    <$> all_Filter.

(** The tree states a user can produce: a freshly built tree, followed by
    any number of [toggle_checked] calls on rows of the tree.  The heap
    after a call is kept whether or not the call raised. *)
Inductive reachable (root : oid) : heap → Prop :=
| reachable_fresh cat h :
    build_tree cat [] = Ret root h → reachable root h
| reachable_toggle h o :
    reachable root h → is_Some (h !! o) →
    reachable root (final_heap (toggle_checked o h)).

(** The heaps that [toggle_checked] calls lead to from the heap [h0],
    whatever [h0] is and whichever rows the calls are made on. *)
Inductive toggled_from (h0 : heap) : heap → Prop :=
| toggled_none : toggled_from h0 h0
| toggled_step h o :
    toggled_from h0 h →
    toggled_from h0 (final_heap (toggle_checked o h)).

(** *** Invariants of the tree *)

(** The attributes that make up the shape of the tree. *)
Definition shape_of (x : TreeItem) : klass * option oid * Z * list oid :=
  (cls x, parent x, row_in_parent x, children x).

(** Which class of row may hang below which. *)
Definition parent_class_ok (child par : klass) : bool :=
  match child, par with
  | FilterItem _, RootItem => true
  | VariantItem _, FilterItem _ => true
  | _, _ => false
  end.

(** Children and parents point at each other, [row_in_parent] is the
    position among the siblings, and the tree has three levels. *)
Record shape_ok (h : heap) : Prop := mk_shape_ok {
  shape_children : ∀ p po i c,
    h !! p = Some po → children po !! i = Some c →
    ∃ co, h !! c = Some co ∧ parent co = Some p ∧
          row_in_parent co = Z.of_nat i ∧
          parent_class_ok (cls co) (cls po) = true;
  shape_parent : ∀ c co,
    h !! c = Some co → is_root (cls co) = false →
    ∃ p po i, parent co = Some p ∧ h !! p = Some po ∧
              row_in_parent co = Z.of_nat i ∧ children po !! i = Some c;
}.

(** A filter is either unconstrained or constrained on one of its rows. *)
Definition filter_state_ok (x : TreeItem) : Prop :=
  (checked_children x = ∅ ∧ checked x = false ∧ checkable x = false) ∨
  (∃ i : nat, checked_children x = {[Z.of_nat i]} ∧
              i < length (children x) ∧
              checked x = true ∧ checkable x = true).

Record checks_ok (h : heap) : Prop := mk_checks_ok {
  checks_filter : ∀ f fo,
    h !! f = Some fo → is_filter (cls fo) = true → filter_state_ok fo;
  checks_variant : ∀ v vo p po,
    h !! v = Some vo → is_variant (cls vo) = true →
    parent vo = Some p → h !! p = Some po →
    (checked vo = true ↔ row_in_parent vo ∈ checked_children po);
}.

Definition tree_ok (h : heap) : Prop := shape_ok h ∧ checks_ok h.

(** The state right after construction: nothing is checked. *)
Definition unchecked (h : heap) : Prop :=
  ∀ o x, h !! o = Some x →
    checked x = false ∧ checked_children x = ∅ ∧
    (is_filter (cls x) = true → checkable x = false).

(** The filter whose subtree a [toggle_checked] on [o] works on. *)
Definition target_filter (h : heap) (o : oid) : option oid :=
  x ← h !! o;
  match cls x with
  | RootItem => None
  | FilterItem _ => Some o
  | VariantItem _ => parent x
  end.

(** The rows of the subtree of [f]: [f] itself and its children. *)
Definition in_subtree (h : heap) (f : option oid) (o : oid) : Prop :=
  ∃ f', f = Some f' ∧
        (o = f' ∨ ∃ x, h !! f' = Some x ∧ o ∈ children x).

(** [h'] differs from [h] at most in the [checked], [checkable] and
    [checked_children] attributes of the rows in [S]. *)
Definition framed (S : oid → Prop) (h h' : heap) : Prop :=
  length h' = length h ∧
  (∀ o, shape_of <$> h' !! o = shape_of <$> h !! o) ∧
  (∀ o, ¬ S o → h' !! o = h !! o).

(** *** A concrete tree *)

(** Two artists come from the song collection; the other filters fed from
    the songs have no variants.  The rows are created in this order: 0 is
    the root, 1 the artist filter with variants 2 and 3, 4 to 6 the title,
    edition and language filters, 7 the golden notes filter with variants
    8 and 9, 10 the rating filter with variants 11 to 16, 17 the views
    filter with variants 18 to 23. *)
Definition example_provider (f : Filter) : list string :=
  match f with
  | ARTIST => ["Foo"; "Baz"]%string
  | _ => []
  end.

Definition example_fresh : heap :=
  final_heap (build_tree (catalog example_provider) []).

(** The same tree after the user ticked the two star rating. *)
Definition example_rated : heap :=
  final_heap (toggle_checked 13 example_fresh).

End Tree.

(** ** Labels of the rows ([__str__] of the enums of [item.py]) *)

Module Labels.
Import Song Match Tree.

#[global] Instance RatingVariant_eq_dec : EqDecision RatingVariant.
Proof. solve_decision. Defined.

#[global] Instance GoldenNotesVariant_eq_dec : EqDecision GoldenNotesVariant.
Proof. solve_decision. Defined.

#[global] Instance ViewsVariant_eq_dec : EqDecision ViewsVariant.
Proof. solve_decision. Defined.

#[global] Instance Filter_eq_dec : EqDecision Filter.
Proof. solve_decision. Defined.

(** Strings are sequences of UTF-8 bytes; the star is one code point. *)
Definition star : string := "★".

(** Python's [n * s] for an integer [n] and a string [s]: [s] repeated
    [n] times, the empty string when [n] is not positive. *)
Definition py_str_mul (n : Z) (s : string) : string :=
  String.concat "" (replicate (Z.to_nat n) s).

(** [v * s] where [v] may be [None]: [None * s] raises [TypeError]. *)
Definition py_mul (v : option Z) (s : string) : result string :=
  match v with
  | None => Err TypeError
  | Some n => Ok (py_str_mul n s)
  end.

(** [Filter.__str__]. *)
Definition Filter_str (self : Filter) : string :=
  match self with
  | ARTIST => "Artist"
  | TITLE => "Title"
  | EDITION => "Edition"
  | LANGUAGE => "Language"
  | GOLDEN_NOTES => "Golden Notes"
  | RATING => "Rating"
  | VIEWS => "Views"
  end.

(** [RatingVariant.__str__]. *)
Definition RatingVariant_str (self : RatingVariant) : result string :=
  if bool_decide (self = R_NONE) then Ok "None"%string
  else py_mul (RatingVariant_value self) star.

(** [GoldenNotesVariant.__str__]. *)
Definition GoldenNotesVariant_str (self : GoldenNotesVariant) : string :=
  match self with
  | NO => "No"
  | YES => "Yes"
  end.

(** The body of [ViewsVariant.__str__] on the value of the member; the
    f-strings format integers in decimal. *)
Definition views_label (value : Z * option Z) : string :=
  match value.2 with
  | None => pretty value.1 +:+ "+"
  | Some hi => pretty value.1 +:+ " to " +:+ pretty (hi - 1)%Z
  end.

Definition ViewsVariant_str (self : ViewsVariant) : string :=
  views_label (ViewsVariant_value self).

End Labels.

(** ** More of the rows: [is_checkable] *)

Module Checkable.
Import Song Match Tree.

(** [FilterItem.is_checkable]: [bool(self.checked_children)]. *)
Definition FilterItem_is_checkable (self : oid) : M bool :=
  x ← as_filter self;
  mret (negb (bool_decide (checked_children x = ∅))).

(** [VariantItem.is_checkable]: [True]. *)
Definition VariantItem_is_checkable (self : oid) : M bool := mret true.

(** [is_checkable], dispatched on the class of the receiver; [TreeItem]
    and [RootItem] do not define it. *)
Definition is_checkable (self : oid) : M bool :=
  x ← load self;
  match cls x with
  | RootItem => raise AttributeError
  | FilterItem _ => FilterItem_is_checkable self
  | VariantItem _ => VariantItem_is_checkable self
  end.

(** The flags no method ever writes: a root is never checked nor
    checkable, a variant is always checkable. *)
Definition row_flags_ok (x : TreeItem) : Prop :=
  match cls x with
  | RootItem => checked x = false ∧ checkable x = false
  | FilterItem _ => True
  | VariantItem _ => checkable x = true
  end.

Definition flags_ok (h : heap) : Prop :=
  ∀ o x, h !! o = Some x → row_flags_ok x.

(** The rating filter of the concrete tree with two rows marked at once,
    a state the toggles never produce. *)
Definition example_multi : heap :=
  final_heap (update 10 (with_checked_children {[1%Z; 3%Z]}) example_fresh).

(** The concrete tree after [check_child] was called on the rating
    filter with an index past its six rows. *)
Definition example_broken : heap :=
  final_heap (check_child 10 6 example_fresh).

End Checkable.

(** ** Songs from the result list ([UsdbSong.from_html]) *)

Module Scraper.
Import Song Match.

(** The scan behind [str.count] for a pattern that is not empty: from
    left to right, counting an occurrence and stepping over it, so that
    occurrences do not overlap.  [skip] is the number of bytes still to
    step over.  Texts are held as UTF-8 bytes; an occurrence of a pattern
    in the bytes is an occurrence in the characters and conversely. *)
Fixpoint count_scan (sub s : string) (skip : nat) : Z :=
  match s with
  | EmptyString => 0
  | String _ s' =>
      match skip with
      | S k => count_scan sub s' k
      | O =>
          if String.prefix sub s
          then (1 + count_scan sub s' (String.length sub - 1))%Z
          else count_scan sub s' 0
      end
  end.

(** A byte that continues a character of several bytes (binary
    10xxxxxx). *)
Definition is_continuation (c : Ascii.ascii) : bool :=
  (128 <=? Ascii.nat_of_ascii c) && (Ascii.nat_of_ascii c <? 192).

(** [len(s)]: the number of characters (code points) of a text held as
    UTF-8 bytes, one per byte that does not continue a character. *)
Fixpoint code_points (s : string) : nat :=
  match s with
  | EmptyString => 0
  | String c s' => (if is_continuation c then 0 else 1) + code_points s'
  end.

(** [s.count(sub)]; the empty pattern occurs between any two characters
    and at both ends. *)
Definition str_count (s sub : string) : Z :=
  if bool_decide (sub = EmptyString) then (Z.of_nat (code_points s) + 1)%Z
  else count_scan sub s 0.

(** [UsdbSong.from_html].  [SongId.parse] is declared outside the files
    at hand and [int] is Python's parser of integers; both are taken as
    parameters that return a number or raise.  The keyword arguments are
    evaluated in the order they are written. *)
Definition from_html (SongId_parse py_int : string → result Z)
    (song_id artist title language edition golden_notes rating views : string)
  : result UsdbSong :=
  match SongId_parse song_id with
  | Err e => Err e
  | Ok id =>
      let golden := String.eqb golden_notes "Yes" in
      let stars := str_count rating "star.png" in
      match py_int views with
      | Err e => Err e
      | Ok n => Ok (mkUsdbSong id artist title language edition golden stars n)
      end
  end.

End Scraper.

(** * Properties of the predicates *)

Section MatchFacts.
Import Song Match.

Lemma py_eq_int_true (v : option Z) (n : Z) :
  py_eq_int v n = true ↔ v = Some n.
Proof.
  destruct v as [m|]; simpl.
  - rewrite Z.eqb_eq. split; congruence.
  - split; discriminate.
Qed.

(** What [RatingVariant.matches_song] computes: the value of the enum
    member, which may be [None], is the rating of the song. *)
Lemma RatingVariant_matches_song_value (r : RatingVariant) (song : SongData) :
  ∃ b, RatingVariant_matches_song r song = Ok b ∧
       (b = true ↔ RatingVariant_value r = Some (rating (data song))).
Proof.
  eexists. split; [reflexivity|]. apply py_eq_int_true.
Qed.

(** C1 (as the code behaves): the variant [R_NONE] holds [None], which no
    integer rating equals; it matches no song, in particular not a song
    whose rating is 0. *)
Theorem RatingVariant_R_NONE_matches_nothing :
  RatingVariant_matches_song R_NONE (song_with 0 1) = Ok false ∧
  ∀ song, RatingVariant_matches_song R_NONE song = Ok false.
Proof. split; reflexivity. Qed.

Lemma views_in_bucket_spec (lo : Z) (hi : option Z) (song : SongData) :
  ∃ b, views_in_bucket (lo, hi) song = Ok b ∧
       (b = true ↔
        (lo ≤ views (data song))%Z ∧
        (hi = None ∨ ∃ u, hi = Some u ∧ (views (data song) < u)%Z)).
Proof.
  unfold views_in_bucket; simpl.
  destruct (Z.leb_spec lo (views (data song))) as [Hlo|Hlo].
  - destruct hi as [u|]; simpl.
    + exists (views (data song) <? u)%Z. split; [reflexivity|].
      rewrite Z.ltb_lt. split.
      * intros Hu. split; [exact Hlo|]. right. exists u. split; [reflexivity|exact Hu].
      * intros [_ [Hn|[u' [Hu' Hlt]]]]; [discriminate|]. congruence.
    + exists true. split; [reflexivity|]. split; [|reflexivity].
      intros _. split; [exact Hlo|]. left; reflexivity.
  - exists false. split; [reflexivity|]. split; [discriminate|].
    intros [Hle _]. lia.
Qed.

(** C6: a views variant with bucket [(lo, hi)] matches a song iff
    [lo <= views] and [hi] is unbounded or [views < hi]; 100 views fall in
    the bucket from 100 to 200 and not in the one from 0 to 100; 999 views
    fall in the unbounded bucket only. *)
Theorem ViewsVariant_matches_song_spec :
  (∀ (v : ViewsVariant) (song : SongData),
     ∃ b, ViewsVariant_matches_song v song = Ok b ∧
          (b = true ↔
           ((ViewsVariant_value v).1 ≤ views (data song))%Z ∧
           ((ViewsVariant_value v).2 = None ∨
            ∃ u, (ViewsVariant_value v).2 = Some u ∧
                 (views (data song) < u)%Z))) ∧
  (∀ r, ViewsVariant_matches_song V_100 (song_with r 100) = Ok true ∧
        ViewsVariant_matches_song V_0 (song_with r 100) = Ok false) ∧
  (∀ r v, ViewsVariant_matches_song v (song_with r 999) = Ok true ↔
          v = V_500).
Proof.
  split; [|split].
  - intros v song. unfold ViewsVariant_matches_song.
    destruct (ViewsVariant_value v) as [lo hi]. apply views_in_bucket_spec.
  - intros r. split; reflexivity.
  - intros r v. split.
    + destruct v; simpl; first [discriminate | reflexivity].
    + intros ->. reflexivity.
Qed.

(** C10: for a song with a non-negative number of views exactly one of
    the six views variants matches. *)
Theorem ViewsVariant_exactly_one (song : SongData) :
  (0 ≤ views (data song))%Z →
  ∃ v, ViewsVariant_matches_song v song = Ok true ∧
       ∀ v', ViewsVariant_matches_song v' song = Ok true → v' = v.
Proof.
  intros Hv.
  assert (Hspec : ∀ v, ViewsVariant_matches_song v song = Ok true ↔
            ((ViewsVariant_value v).1 ≤ views (data song))%Z ∧
            ((ViewsVariant_value v).2 = None ∨
             ∃ u, (ViewsVariant_value v).2 = Some u ∧
                  (views (data song) < u)%Z)).
  { intros v. unfold ViewsVariant_matches_song.
    destruct (ViewsVariant_value v) as [lo hi].
    destruct (views_in_bucket_spec lo hi song) as [b [-> Hb]].
    rewrite <- Hb. split; congruence. }
  destruct (Z_lt_le_dec (views (data song)) 100) as [H1|H1];
  [exists V_0|
   destruct (Z_lt_le_dec (views (data song)) 200) as [H2|H2];
   [exists V_100|
    destruct (Z_lt_le_dec (views (data song)) 300) as [H3|H3];
    [exists V_200|
     destruct (Z_lt_le_dec (views (data song)) 400) as [H4|H4];
     [exists V_300|
      destruct (Z_lt_le_dec (views (data song)) 500) as [H5|H5];
      [exists V_400|exists V_500]]]]];
  (split;
   [apply Hspec; simpl; split; [lia|first [left; reflexivity | right; eexists; split; [reflexivity|lia]]]
   |intros v' Hv'; apply Hspec in Hv'; destruct v'; simpl in Hv';
    destruct Hv' as [Hlo [Hn|[u [Hu Hlt]]]];
    first [reflexivity | discriminate | (simplify_eq; lia) | lia]]).
Qed.

Lemma ViewsVariant_exactly_one_witness :
  (0 ≤ views (data (song_with 0 250)))%Z ∧
  ∃ v, ViewsVariant_matches_song v (song_with 0 250) = Ok true ∧
       ∀ v', ViewsVariant_matches_song v' (song_with 0 250) = Ok true → v' = v.
Proof.
  split; [simpl; lia|].
  apply (ViewsVariant_exactly_one (song_with 0 250)). simpl. lia.
Defined.

(** [matches_song] never raises, whatever the predicate and the song. *)
Lemma matches_song_total (m : SongMatch) (song : SongData) :
  ∃ b, matches_song m song = Ok b.
Proof.
  destruct m as [s|s|s|s|r|g|v]; simpl; try (eexists; reflexivity).
  unfold ViewsVariant_matches_song.
  destruct (ViewsVariant_value v) as [lo hi].
  destruct (views_in_bucket_spec lo hi song) as [b [Hb _]].
  exists b; exact Hb.
Qed.

End MatchFacts.

(** * The heap monad *)

Section MonadFacts.
Import Song Match Tree.

Lemma bind_eq {A B} (m : M A) (k : A → M B) (h : heap) :
  (m ≫= k) h =
  match m h with Ret a h' => k a h' | Raise e h' => Raise e h' end.
Proof. reflexivity. Qed.

Lemma bind_Ret {A B} (m : M A) (k : A → M B) (h h' : heap) (a : A) :
  m h = Ret a h' → (m ≫= k) h = k a h'.
Proof. intros Hm. rewrite bind_eq, Hm. reflexivity. Qed.

Lemma load_Some (o : oid) (x : TreeItem) (h : heap) :
  h !! o = Some x → load o h = Ret x h.
Proof. intros Ho. unfold load. rewrite Ho. reflexivity. Qed.

Lemma update_Some (o : oid) (f : TreeItem → TreeItem) (x : TreeItem)
    (h : heap) :
  h !! o = Some x → update o f h = Ret () (alter f o h).
Proof. intros Ho. unfold update. rewrite Ho. reflexivity. Qed.

Lemma as_filter_Some (o : oid) (x : TreeItem) (h : heap) :
  h !! o = Some x → is_filter (cls x) = true → as_filter o h = Ret x h.
Proof.
  intros Ho Hf. unfold as_filter. rewrite (bind_Ret _ _ _ _ _ (load_Some _ _ _ Ho)).
  rewrite Hf. reflexivity.
Qed.

Lemma lookup_alter_heap (f : TreeItem → TreeItem) (o o' : oid) (h : heap) :
  alter f o h !! o' = (if decide (o = o') then f else id) <$> h !! o'.
Proof.
  destruct (decide (o = o')) as [->|Hne].
  - apply list_lookup_alter_eq.
  - rewrite list_lookup_alter_ne by exact Hne.
    destruct (h !! o'); reflexivity.
Qed.

(** Subscripting returns an element of the tuple, at a position that the
    index names directly when it is not negative. *)
Lemma py_getitem_Ok {A} (l : list A) (i : Z) (a : A) :
  py_getitem l i = Ok a → a ∈ l.
Proof.
  unfold py_getitem.
  destruct (_ && _); [|discriminate].
  destruct (l !! _) eqn:Hl; [|discriminate].
  intros [= ->]. eapply list_elem_of_lookup_2. exact Hl.
Qed.

Lemma py_getitem_nat {A} (l : list A) (i : nat) (a : A) :
  l !! i = Some a → py_getitem l (Z.of_nat i) = Ok a.
Proof.
  intros Hl. unfold py_getitem.
  pose proof (lookup_lt_Some _ _ _ Hl) as Hlt.
  destruct (Z.ltb_spec (Z.of_nat i) 0) as [Hneg|_]; [lia|].
  destruct (Z.leb_spec 0 (Z.of_nat i)) as [_|Hneg]; [|lia].
  destruct (Z.ltb_spec (Z.of_nat i) (Z.of_nat (length l))) as [_|Hge]; [|lia].
  simpl. rewrite Nat2Z.id, Hl. reflexivity.
Qed.

(** ** Frames *)

Lemma framed_refl (S : oid → Prop) (h : heap) : framed S h h.
Proof. repeat split. Qed.

Lemma framed_trans (S : oid → Prop) (h1 h2 h3 : heap) :
  framed S h1 h2 → framed S h2 h3 → framed S h1 h3.
Proof.
  intros (Hl1 & Hs1 & Ho1) (Hl2 & Hs2 & Ho2). repeat split.
  - congruence.
  - intros o. rewrite Hs2. apply Hs1.
  - intros o Ho. rewrite Ho2 by exact Ho. apply Ho1, Ho.
Qed.

Lemma framed_update (S : oid → Prop) (o : oid) (f : TreeItem → TreeItem)
    (h : heap) :
  (∀ x, shape_of (f x) = shape_of x) → S o →
  framed S h (final_heap (update o f h)).
Proof.
  intros Hf HS. unfold update.
  destruct (h !! o) as [x|] eqn:Ho; simpl; [|apply framed_refl].
  repeat split.
  - apply length_alter.
  - intros o'. rewrite lookup_alter_heap.
    destruct (decide (o = o')); destruct (h !! o'); simpl; try reflexivity.
    rewrite Hf. reflexivity.
  - intros o' Ho'. rewrite lookup_alter_heap.
    destruct (decide (o = o')) as [->|_]; [contradiction|].
    destruct (h !! o'); reflexivity.
Qed.

Lemma framed_bind {A B} (S : oid → Prop) (m : M A) (k : A → M B)
    (h : heap) :
  framed S h (final_heap (m h)) →
  (∀ a h', m h = Ret a h' → framed S h h' →
           framed S h' (final_heap (k a h'))) →
  framed S h (final_heap ((m ≫= k) h)).
Proof.
  intros Hm Hk. rewrite bind_eq.
  destruct (m h) as [a h'|e h'] eqn:Emh; simpl in *; [|exact Hm].
  eapply framed_trans; [exact Hm|]. apply Hk; [reflexivity|exact Hm].
Qed.

Lemma framed_for_each {A} (S : oid → Prop) (l : list A) (body : A → M unit)
    (h : heap) :
  (∀ a h', a ∈ l → framed S h' (final_heap (body a h'))) →
  framed S h (final_heap (for_each l body h)).
Proof.
  revert h. induction l as [|a l IH]; intros h Hbody; simpl.
  - apply framed_refl.
  - apply framed_bind.
    + apply Hbody. left.
    + intros _ h' _ _. apply IH. intros a' h'' Ha'. apply Hbody. right. exact Ha'.
Qed.

Lemma framed_load {B} (S : oid → Prop) (o : oid) (k : TreeItem → M B)
    (h : heap) :
  (∀ x, h !! o = Some x → framed S h (final_heap (k x h))) →
  framed S h (final_heap ((load o ≫= k) h)).
Proof.
  intros Hk. rewrite bind_eq. unfold load.
  destruct (h !! o) as [x|]; simpl; [|apply framed_refl].
  apply Hk. reflexivity.
Qed.

Lemma framed_children (S : oid → Prop) (h h' : heap) (o : oid)
    (x' : TreeItem) :
  framed S h h' → h' !! o = Some x' →
  ∃ x, h !! o = Some x ∧ shape_of x = shape_of x'.
Proof.
  intros (_ & Hs & _) Ho'. specialize (Hs o). rewrite Ho' in Hs.
  destruct (h !! o) as [x|]; simpl in Hs; [|discriminate].
  exists x. split; [reflexivity|]. congruence.
Qed.

Lemma framed_lookup (S : oid → Prop) (h h' : heap) (o : oid) (x : TreeItem) :
  framed S h h' → h !! o = Some x →
  ∃ x', h' !! o = Some x' ∧ shape_of x' = shape_of x.
Proof.
  intros (_ & Hs & _) Ho. specialize (Hs o). rewrite Ho in Hs.
  destruct (h' !! o) as [x'|]; simpl in Hs; [|discriminate].
  exists x'. split; [reflexivity|]. congruence.
Qed.

Lemma uncheck_children_framed (f : oid) (h : heap) :
  framed (in_subtree h (Some f)) h (final_heap (uncheck_children f h)).
Proof.
  unfold uncheck_children, as_filter.
  rewrite bind_eq, bind_eq. unfold load.
  destruct (h !! f) as [x|] eqn:Hf; simpl; [|apply framed_refl].
  destruct (is_filter (cls x)); simpl; [|apply framed_refl].
  assert (Hself : in_subtree h (Some f) f).
  { exists f. split; [reflexivity|]. left; reflexivity. }
  apply (framed_bind _ (for_each _ _)).
  { apply framed_for_each. intros c h' Hc. apply framed_update; [done|].
    exists f. split; [reflexivity|]. right. exists x. split; assumption. }
  intros _ h1 _ _. apply (framed_bind _ (update _ _)).
  { apply framed_update; done. }
  intros _ h2 _ _. apply (framed_bind _ (update _ _)).
  { apply framed_update; done. }
  intros _ h3 _ _. apply framed_update; done.
Qed.

Lemma check_child_framed (f : oid) (child : Z) (h : heap) :
  framed (in_subtree h (Some f)) h (final_heap (check_child f child h)).
Proof.
  unfold check_child.
  assert (Hself : in_subtree h (Some f) f).
  { exists f. split; [reflexivity|]. left; reflexivity. }
  apply framed_bind; [apply uncheck_children_framed|].
  intros _ h1 _ H01.
  assert (Hin : ∀ h', framed (in_subtree h (Some f)) h1 h' →
            framed (in_subtree h (Some f)) h h').
  { intros h'. apply framed_trans. exact H01. }
  apply (framed_bind _ (update _ _)); [apply framed_update; done|].
  intros _ h2 _ H12. apply (framed_bind _ (update _ _)); [apply framed_update; done|].
  intros _ h3 _ H23. apply (framed_bind _ (update _ _)); [apply framed_update; done|].
  intros _ h4 _ H34. apply framed_load. intros x Hx.
  rewrite bind_eq.
  destruct (py_getitem (children x) child) as [c|e] eqn:Hc; simpl;
    [|apply framed_refl].
  apply framed_update; [done|].
  assert (H04 : framed (in_subtree h (Some f)) h h4).
  { apply Hin. eapply framed_trans; [exact H12|].
    eapply framed_trans; [exact H23|exact H34]. }
  destruct (framed_children _ _ _ _ _ H04 Hx) as (x0 & Hx0 & Hsh).
  exists f. split; [reflexivity|]. right. exists x0. split; [exact Hx0|].
  assert (children x0 = children x) as -> by (unfold shape_of in Hsh; congruence).
  eapply py_getitem_Ok. exact Hc.
Qed.

Lemma toggle_checked_framed (o : oid) (h : heap) :
  framed (in_subtree h (target_filter h o)) h
         (final_heap (toggle_checked o h)).
Proof.
  unfold toggle_checked, target_filter. rewrite bind_eq. unfold load.
  destruct (h !! o) as [x|] eqn:Ho; simpl; [|apply framed_refl].
  destruct (cls x) as [|d|d]; simpl.
  - apply framed_refl.
  - unfold FilterItem_toggle_checked. rewrite bind_eq. unfold load.
    rewrite Ho. destruct (checked x); simpl; [|apply framed_refl].
    apply uncheck_children_framed.
  - unfold VariantItem_toggle_checked. rewrite bind_eq. unfold load.
    rewrite Ho. destruct (parent x) as [p|]; simpl; [|apply framed_refl].
    destruct (checked x).
    + apply uncheck_children_framed.
    + apply check_child_framed.
Qed.

(** ** Queries leave the heap alone *)

Lemma any_of_heap {A} (l : list A) (body : A → M bool) (h : heap) :
  (∀ a h', final_heap (body a h') = h') →
  final_heap (any_of l body h) = h.
Proof.
  intros Hbody. induction l as [|a l IH]; simpl; [reflexivity|].
  rewrite bind_eq. specialize (Hbody a h).
  destruct (body a h) as [b h'|e h']; simpl in *; subst h'; [|reflexivity].
  destruct b; [reflexivity|exact IH].
Qed.

Lemma VariantItem_accepts_song_heap (v : oid) (song : SongData) (h : heap) :
  final_heap (VariantItem_accepts_song v song h) = h.
Proof.
  unfold VariantItem_accepts_song. rewrite bind_eq. unfold load.
  destruct (h !! v) as [x|]; simpl; [|reflexivity].
  destruct (cls x) as [|d|m]; simpl; try reflexivity.
  destruct (matches_song m song); reflexivity.
Qed.

Lemma FilterItem_accepts_song_heap (f : oid) (song : SongData) (h : heap) :
  final_heap (FilterItem_accepts_song f song h) = h.
Proof.
  unfold FilterItem_accepts_song, FilterItem_accepts_song_by, as_filter.
  rewrite bind_eq, bind_eq.
  unfold load.
  destruct (h !! f) as [x|]; simpl; [|reflexivity].
  destruct (is_filter (cls x)); simpl; [|reflexivity].
  destruct (bool_decide _); [reflexivity|].
  apply any_of_heap. intros i h'. rewrite bind_eq. unfold load.
  destruct (h' !! f) as [y|]; simpl; [|reflexivity].
  rewrite bind_eq.
  destruct (py_getitem (children y) i); simpl; [|reflexivity].
  apply VariantItem_accepts_song_heap.
Qed.

End MonadFacts.

(** * What the mutating methods do on a well-shaped tree *)

Section ToggleFacts.
Import Song Match Tree.

Lemma shape_ok_framed (S : oid → Prop) (h h' : heap) :
  framed S h h' → shape_ok h → shape_ok h'.
Proof.
  intros Hfr [Hch Hpa]. split.
  - intros p po' i c Hp Hc.
    destruct (framed_children _ _ _ _ _ Hfr Hp) as (po & Hpo & Hsp).
    unfold shape_of in Hsp. simplify_eq.
    assert (Hc0 : children po !! i = Some c) by congruence.
    destruct (Hch _ _ _ _ Hpo Hc0) as (co & Hco & Hpar & Hrow & Hcls).
    destruct (framed_lookup _ _ _ _ _ Hfr Hco) as (co' & Hco' & Hsc).
    unfold shape_of in Hsc. simplify_eq.
    exists co'. repeat split; congruence.
  - intros c co' Hc Hroot.
    destruct (framed_children _ _ _ _ _ Hfr Hc) as (co & Hco & Hsc).
    unfold shape_of in Hsc. simplify_eq.
    assert (Hroot0 : is_root (cls co) = false) by congruence.
    destruct (Hpa _ _ Hco Hroot0) as (p & po & i & Hpar & Hpo & Hrow & Hci).
    destruct (framed_lookup _ _ _ _ _ Hfr Hpo) as (po' & Hpo' & Hsp).
    unfold shape_of in Hsp. simplify_eq.
    exists p, po', i. repeat split; congruence.
Qed.

(** In a well-shaped tree the children of a filter are variants, and a
    row is never its own child. *)
Lemma shape_child_of_filter (h : heap) (f : oid) (fo : TreeItem) (i : nat)
    (c : oid) :
  shape_ok h → h !! f = Some fo → is_filter (cls fo) = true →
  children fo !! i = Some c →
  ∃ co, h !! c = Some co ∧ parent co = Some f ∧
        row_in_parent co = Z.of_nat i ∧ is_variant (cls co) = true ∧ c ≠ f.
Proof.
  intros Hsh Hf Hfil Hc.
  destruct (shape_children _ Hsh _ _ _ _ Hf Hc) as (co & Hco & Hpar & Hrow & Hcls).
  exists co. repeat split; try assumption.
  - destruct (cls co), (cls fo); simpl in *; congruence.
  - intros ->. assert (co = fo) as -> by congruence.
    destruct (cls fo); simpl in *; congruence.
Qed.

Lemma shape_parent_of_variant (h : heap) (v : oid) (vo : TreeItem) :
  shape_ok h → h !! v = Some vo → is_variant (cls vo) = true →
  ∃ f fo i, parent vo = Some f ∧ h !! f = Some fo ∧
            is_filter (cls fo) = true ∧
            row_in_parent vo = Z.of_nat i ∧ children fo !! i = Some v ∧
            v ≠ f.
Proof.
  intros Hsh Hv Hvar.
  assert (Hroot : is_root (cls vo) = false) by (destruct (cls vo); done).
  destruct (shape_parent _ Hsh _ _ Hv Hroot) as (f & fo & i & Hpar & Hf & Hrow & Hc).
  destruct (shape_children _ Hsh _ _ _ _ Hf Hc) as (co & Hco & _ & _ & Hcls).
  assert (co = vo) as -> by congruence.
  exists f, fo, i. repeat split; try assumption.
  - destruct (cls vo), (cls fo); simpl in *; congruence.
  - intros ->. assert (fo = vo) as -> by congruence.
    destruct (cls vo); simpl in *; congruence.
Qed.

Lemma shape_children_inj (h : heap) (p : oid) (po : TreeItem) (i j : nat)
    (c : oid) :
  shape_ok h → h !! p = Some po →
  children po !! i = Some c → children po !! j = Some c → i = j.
Proof.
  intros Hsh Hp Hi Hj.
  destruct (shape_children _ Hsh _ _ _ _ Hp Hi) as (co & Hco & _ & Hrow & _).
  destruct (shape_children _ Hsh _ _ _ _ Hp Hj) as (co' & Hco' & _ & Hrow' & _).
  simplify_eq. lia.
Qed.

(** The loop of [uncheck_children]. *)
Lemma for_each_uncheck (l : list oid) (h : heap) :
  (∀ c, c ∈ l → is_Some (h !! c)) →
  ∃ h', for_each l (λ child, update child (with_checked false)) h
          = Ret () h' ∧
        ∀ o, h' !! o =
             (if bool_decide (o ∈ l) then with_checked false else id)
               <$> h !! o.
Proof.
  revert h. induction l as [|c l IH]; intros h Hl; cbn [for_each].
  - exists h. split; [reflexivity|]. intros o.
    rewrite bool_decide_eq_false_2 by apply not_elem_of_nil.
    destruct (h !! o); reflexivity.
  - destruct (Hl c) as [x Hx]; [left|].
    rewrite (bind_Ret _ _ _ _ _ (update_Some _ _ _ _ Hx)).
    destruct (IH (alter (with_checked false) c h)) as (h' & Hrun & Hlk).
    { intros c' Hc'. rewrite lookup_alter_heap.
      apply fmap_is_Some, Hl. right. exact Hc'. }
    exists h'. split; [exact Hrun|]. intros o.
    rewrite Hlk, lookup_alter_heap.
    destruct (h !! o) as [y|]; simpl; [|reflexivity].
    destruct (decide (c = o)) as [->|Hne].
    + rewrite (bool_decide_eq_true_2 (o ∈ o :: l)) by left.
      destruct (bool_decide (o ∈ l)); reflexivity.
    + destruct (bool_decide (o ∈ l)) eqn:Ho.
      * apply bool_decide_eq_true_1 in Ho.
        rewrite bool_decide_eq_true_2 by (right; exact Ho). reflexivity.
      * apply bool_decide_eq_false_1 in Ho.
        rewrite bool_decide_eq_false_2; [reflexivity|].
        intros Hin. apply elem_of_cons in Hin as [->|Hin]; done.
Qed.

Lemma uncheck_children_spec (h : heap) (f : oid) (fo : TreeItem) :
  shape_ok h → h !! f = Some fo → is_filter (cls fo) = true →
  ∃ h', uncheck_children f h = Ret () h' ∧
        h' !! f = Some (mkTreeItem (cls fo) (parent fo) (row_in_parent fo)
                                   (children fo) false false ∅) ∧
        ∀ o, o ≠ f →
             h' !! o =
             (if bool_decide (o ∈ children fo) then with_checked false
              else id) <$> h !! o.
Proof.
  intros Hsh Hf Hfil. unfold uncheck_children.
  rewrite (bind_Ret _ _ _ _ _ (as_filter_Some _ _ _ Hf Hfil)).
  destruct (for_each_uncheck (children fo) h) as (h1 & Hrun & Hlk).
  { intros c Hc. apply list_elem_of_lookup_1 in Hc as [i Hi].
    destruct (shape_children _ Hsh _ _ _ _ Hf Hi) as (co & Hco & _). eauto. }
  rewrite (bind_Ret _ _ _ _ _ Hrun).
  pose proof (Hlk f) as Hf1. rewrite Hf in Hf1. simpl in Hf1.
  rewrite (bind_Ret _ _ _ _ _ (update_Some _ _ _ _ Hf1)).
  set (h2 := alter (with_checked_children ∅) f h1).
  assert (Hf2 : h2 !! f = Some (with_checked_children ∅
            ((if bool_decide (f ∈ children fo) then with_checked false
              else id) fo))).
  { unfold h2. rewrite list_lookup_alter_eq, Hf1. reflexivity. }
  rewrite (bind_Ret _ _ _ _ _ (update_Some _ _ _ _ Hf2)).
  set (h3 := alter (with_checkable false) f h2).
  assert (Hf3 : h3 !! f = Some (with_checkable false (with_checked_children ∅
            ((if bool_decide (f ∈ children fo) then with_checked false
              else id) fo)))).
  { unfold h3. rewrite list_lookup_alter_eq, Hf2. reflexivity. }
  rewrite (update_Some _ _ _ _ Hf3).
  eexists. split; [reflexivity|]. split.
  - rewrite list_lookup_alter_eq, Hf3. simpl.
    destruct (bool_decide (f ∈ children fo)); reflexivity.
  - intros o Ho. unfold h3, h2.
    rewrite !list_lookup_alter_ne by congruence. apply Hlk.
Qed.

Lemma check_child_spec (h : heap) (f : oid) (fo : TreeItem) (i : nat)
    (v : oid) :
  shape_ok h → h !! f = Some fo → is_filter (cls fo) = true →
  children fo !! i = Some v →
  ∃ h', check_child f (Z.of_nat i) h = Ret () h' ∧
        h' !! f = Some (mkTreeItem (cls fo) (parent fo) (row_in_parent fo)
                          (children fo) true true {[Z.of_nat i]}) ∧
        (∃ vo, h !! v = Some vo ∧ h' !! v = Some (with_checked true vo)) ∧
        ∀ o, o ≠ f → o ≠ v →
             h' !! o =
             (if bool_decide (o ∈ children fo) then with_checked false
              else id) <$> h !! o.
Proof.
  intros Hsh Hf Hfil Hv. unfold check_child.
  destruct (uncheck_children_spec h f fo Hsh Hf Hfil) as (h1 & Hrun & Hf1 & Hlk).
  destruct (shape_child_of_filter _ _ _ _ _ Hsh Hf Hfil Hv)
    as (vo & Hvo & _ & _ & _ & Hvf).
  rewrite (bind_Ret _ _ _ _ _ Hrun).
  rewrite (bind_Ret _ _ _ _ _ (update_Some _ _ _ _ Hf1)).
  match goal with |- context [alter ?g f h1] => set (h2 := alter g f h1) end.
  assert (Hf2 : h2 !! f = Some (mkTreeItem (cls fo) (parent fo)
            (row_in_parent fo) (children fo) false false {[Z.of_nat i]})).
  { unfold h2. rewrite list_lookup_alter_eq, Hf1. simpl.
    unfold with_checked_children; simpl. f_equal. f_equal. apply union_empty_r_L. }
  rewrite (bind_Ret _ _ _ _ _ (update_Some _ _ _ _ Hf2)).
  set (h3 := alter (with_checkable true) f h2).
  assert (Hf3 : h3 !! f = Some (mkTreeItem (cls fo) (parent fo)
            (row_in_parent fo) (children fo) false true {[Z.of_nat i]})).
  { unfold h3. rewrite list_lookup_alter_eq, Hf2. reflexivity. }
  rewrite (bind_Ret _ _ _ _ _ (update_Some _ _ _ _ Hf3)).
  set (h4 := alter (with_checked true) f h3).
  assert (Hf4 : h4 !! f = Some (mkTreeItem (cls fo) (parent fo)
            (row_in_parent fo) (children fo) true true {[Z.of_nat i]})).
  { unfold h4. rewrite list_lookup_alter_eq, Hf3. reflexivity. }
  rewrite (bind_Ret _ _ _ _ _ (load_Some _ _ _ Hf4)). simpl children.
  rewrite (py_getitem_nat _ _ _ Hv). simpl.
  assert (Hother : ∀ o, o ≠ f → h4 !! o = h1 !! o).
  { intros o Ho. unfold h4, h3, h2.
    rewrite !list_lookup_alter_ne by congruence. reflexivity. }
  assert (Hv4 : h4 !! v = Some (with_checked false vo)).
  { rewrite Hother, Hlk by exact Hvf. rewrite Hvo. simpl.
    rewrite bool_decide_eq_true_2; [reflexivity|].
    eapply list_elem_of_lookup_2. exact Hv. }
  unfold mbind, M_bind, mret, M_ret.
  rewrite (update_Some _ _ _ _ Hv4).
  eexists. split; [reflexivity|]. split; [|split].
  - rewrite list_lookup_alter_ne by congruence. exact Hf4.
  - exists vo. split; [exact Hvo|].
    rewrite list_lookup_alter_eq, Hv4. reflexivity.
  - intros o Hof Hov. rewrite list_lookup_alter_ne by congruence.
    rewrite Hother by exact Hof. apply Hlk, Hof.
Qed.

(** The invariant on the check marks survives any change that rewrites
    the state of one filter and re-marks its children accordingly. *)
Lemma checks_ok_retarget (h h' : heap) (f : oid) (fo fo' : TreeItem)
    (chk : nat → bool) :
  shape_ok h → checks_ok h →
  h !! f = Some fo → is_filter (cls fo) = true →
  h' !! f = Some fo' → shape_of fo' = shape_of fo → filter_state_ok fo' →
  (∀ j c, children fo !! j = Some c →
     (chk j = true ↔ Z.of_nat j ∈ checked_children fo') ∧
     ∃ co, h !! c = Some co ∧ h' !! c = Some (with_checked (chk j) co)) →
  (∀ o, o ≠ f → o ∉ children fo → h' !! o = h !! o) →
  checks_ok h'.
Proof.
  intros Hsh [Hcf Hcv] Hf Hfil Hf' Hshape Hst Hkids Hrest.
  unfold shape_of in Hshape.
  assert (Hcls : cls fo' = cls fo) by congruence.
  split.
  - intros g go' Hg Hgfil.
    destruct (decide (g = f)) as [->|Hgf]; [congruence|].
    destruct (decide (g ∈ children fo)) as [Hin|Hnin].
    + apply list_elem_of_lookup_1 in Hin as [j Hj].
      destruct (shape_child_of_filter _ _ _ _ _ Hsh Hf Hfil Hj)
        as (co & Hco & _ & _ & Hvar & _).
      destruct (Hkids _ _ Hj) as (_ & co' & Hco' & Hg').
      assert (co' = co) as -> by congruence.
      rewrite Hg in Hg'. injection Hg' as ->. simpl in Hgfil.
      destruct (cls co); simpl in *; congruence.
    + rewrite (Hrest _ Hgf Hnin) in Hg. eapply Hcf; eassumption.
  - intros v vo' p po' Hv Hvar Hpar Hp.
    destruct (decide (v = f)) as [->|Hvf].
    { assert (vo' = fo') as -> by congruence.
      rewrite Hcls in Hvar. destruct (cls fo); simpl in *; congruence. }
    destruct (decide (v ∈ children fo)) as [Hin|Hnin].
    + apply list_elem_of_lookup_1 in Hin as [j Hj].
      destruct (shape_child_of_filter _ _ _ _ _ Hsh Hf Hfil Hj)
        as (co & Hco & Hcpar & Hcrow & _ & _).
      destruct (Hkids _ _ Hj) as (Hchk & co' & Hco' & Hv').
      assert (co' = co) as -> by congruence.
      rewrite Hv in Hv'. injection Hv' as ->. simpl in *.
      assert (p = f) as -> by congruence.
      assert (po' = fo') as -> by congruence.
      rewrite Hcrow. exact Hchk.
    + rewrite (Hrest _ Hvf Hnin) in Hv.
      destruct (shape_parent_of_variant _ _ _ Hsh Hv Hvar)
        as (q & qo & i & Hqpar & Hq & Hqfil & Hqrow & Hqi & _).
      assert (q = p) as -> by congruence.
      assert (Hpf : p ≠ f).
      { intros ->. apply Hnin. assert (qo = fo) as -> by congruence.
        eapply list_elem_of_lookup_2. exact Hqi. }
      assert (Hpnin : p ∉ children fo).
      { intros Hin. apply list_elem_of_lookup_1 in Hin as [j Hj].
        destruct (shape_child_of_filter _ _ _ _ _ Hsh Hf Hfil Hj)
          as (co & Hco & _ & _ & Hcvar & _).
        assert (co = qo) as -> by congruence.
        destruct (cls qo); simpl in *; congruence. }
      rewrite (Hrest _ Hpf Hpnin) in Hp.
      eapply Hcv; eassumption.
Qed.

Lemma uncheck_children_ok (h : heap) (f : oid) (fo : TreeItem) :
  tree_ok h → h !! f = Some fo → is_filter (cls fo) = true →
  ∃ h', uncheck_children f h = Ret () h' ∧ tree_ok h'.
Proof.
  intros [Hsh Hck] Hf Hfil.
  destruct (uncheck_children_spec h f fo Hsh Hf Hfil) as (h' & Hrun & Hf' & Hlk).
  exists h'. split; [exact Hrun|]. split.
  - pose proof (uncheck_children_framed f h) as Hfr. rewrite Hrun in Hfr.
    eapply shape_ok_framed; eassumption.
  - eapply (checks_ok_retarget h h' f fo _ (λ _, false)); try eassumption.
    + reflexivity.
    + left. repeat split.
    + intros j c Hj. simpl. split.
      * split; [discriminate|]. intros Hin. apply not_elem_of_empty in Hin. destruct Hin.
      * destruct (shape_child_of_filter _ _ _ _ _ Hsh Hf Hfil Hj)
          as (co & Hco & _ & _ & _ & Hcf).
        exists co. split; [exact Hco|]. rewrite Hlk, Hco by exact Hcf. simpl.
        rewrite bool_decide_eq_true_2; [reflexivity|].
        eapply list_elem_of_lookup_2. exact Hj.
    + intros o Hof Hnin. rewrite Hlk by exact Hof.
      rewrite bool_decide_eq_false_2 by exact Hnin.
      destruct (h !! o); reflexivity.
Qed.

Lemma check_child_ok (h : heap) (f : oid) (fo : TreeItem) (i : nat)
    (v : oid) :
  tree_ok h → h !! f = Some fo → is_filter (cls fo) = true →
  children fo !! i = Some v →
  ∃ h', check_child f (Z.of_nat i) h = Ret () h' ∧ tree_ok h'.
Proof.
  intros [Hsh Hck] Hf Hfil Hv.
  destruct (check_child_spec h f fo i v Hsh Hf Hfil Hv)
    as (h' & Hrun & Hf' & (vo & Hvo & Hv') & Hlk).
  exists h'. split; [exact Hrun|]. split.
  - pose proof (check_child_framed f (Z.of_nat i) h) as Hfr.
    rewrite Hrun in Hfr. eapply shape_ok_framed; eassumption.
  - eapply (checks_ok_retarget h h' f fo _ (λ j, bool_decide (j = i)));
      try eassumption.
    + reflexivity.
    + right. exists i. repeat split. simpl.
      eapply lookup_lt_Some. exact Hv.
    + intros j c Hj. simpl. split.
      * rewrite bool_decide_eq_true, elem_of_singleton. split; [congruence|lia].
      * destruct (shape_child_of_filter _ _ _ _ _ Hsh Hf Hfil Hj)
          as (co & Hco & _ & _ & _ & Hcf).
        exists co. split; [exact Hco|].
        destruct (decide (j = i)) as [->|Hji].
        -- assert (c = v) as -> by congruence.
           rewrite bool_decide_eq_true_2 by reflexivity. congruence.
        -- rewrite bool_decide_eq_false_2 by exact Hji.
           assert (Hcv : c ≠ v).
           { intros ->. apply Hji.
             exact (shape_children_inj h f fo j i v Hsh Hf Hj Hv). }
           rewrite Hlk, Hco by assumption. simpl.
           rewrite bool_decide_eq_true_2; [reflexivity|].
           eapply list_elem_of_lookup_2. exact Hj.
    + intros o Hof Hnin.
      assert (Hov : o ≠ v).
      { intros ->. apply Hnin. eapply list_elem_of_lookup_2. exact Hv. }
      rewrite Hlk by assumption.
      rewrite bool_decide_eq_false_2 by exact Hnin.
      destruct (h !! o); reflexivity.
Qed.

(** [toggle_checked] on any row of a consistent tree returns and leaves a
    consistent tree. *)
Lemma toggle_checked_ok (h : heap) (o : oid) :
  tree_ok h → is_Some (h !! o) →
  ∃ h', toggle_checked o h = Ret () h' ∧ tree_ok h'.
Proof.
  intros Hok [x Hx]. unfold toggle_checked.
  rewrite (bind_Ret _ _ _ _ _ (load_Some _ _ _ Hx)).
  destruct (cls x) as [|d|m] eqn:Hcls.
  - exists h. split; [reflexivity|exact Hok].
  - unfold FilterItem_toggle_checked.
    rewrite (bind_Ret _ _ _ _ _ (load_Some _ _ _ Hx)).
    destruct (checked x).
    + apply (uncheck_children_ok h o x Hok Hx). rewrite Hcls. reflexivity.
    + exists h. split; [reflexivity|exact Hok].
  - unfold VariantItem_toggle_checked.
    rewrite (bind_Ret _ _ _ _ _ (load_Some _ _ _ Hx)).
    destruct (shape_parent_of_variant h o x (proj1 Hok) Hx)
      as (f & fo & i & Hpar & Hf & Hfil & Hrow & Hi & _).
    { rewrite Hcls. reflexivity. }
    rewrite Hpar. destruct (checked x).
    + apply (uncheck_children_ok h f fo Hok Hf Hfil).
    + rewrite Hrow. apply (check_child_ok h f fo i o Hok Hf Hfil Hi).
Qed.

End ToggleFacts.

(** * Building a tree *)

Section BuildFacts.
Import Song Match Tree.

Lemma alter_snoc (f : TreeItem → TreeItem) (h : heap) (x : TreeItem) :
  alter f (length h) (h ++ [x]) = h ++ [f x].
Proof.
  rewrite <- (Nat.add_0_r (length h)). rewrite alter_app_r. reflexivity.
Qed.

Lemma lookup_snoc_new (h : heap) (x : TreeItem) :
  (h ++ [x]) !! length h = Some x.
Proof. apply list_lookup_middle. reflexivity. Qed.

Lemma has_add_child_filter (k : klass) :
  is_filter k = true → has_add_child k = true.
Proof. intros Hk. unfold has_add_child. rewrite Hk. apply orb_true_r. Qed.

Lemma has_add_child_parent (child par : klass) :
  parent_class_ok child par = true → has_add_child par = true.
Proof. destruct child, par; simpl; intros H; first [reflexivity | discriminate]. Qed.

(** [add_child] on a freshly created object. *)
Lemma add_child_new (h : heap) (p : oid) (po x : TreeItem) :
  h !! p = Some po → has_add_child (cls po) = true →
  add_child p (length h) (h ++ [x]) = Ret () (attach h p po x).
Proof.
  intros Hp Hk. unfold add_child.
  assert (Hp1 : ∀ y, (h ++ [y]) !! p = Some po).
  { intros y. apply lookup_app_l_Some, Hp. }
  rewrite (bind_Ret _ _ _ _ _ (load_Some _ _ _ (Hp1 _))), Hk.
  rewrite (bind_Ret _ _ _ _ _ (update_Some _ _ _ _ (lookup_snoc_new h x))).
  rewrite alter_snoc.
  rewrite (bind_Ret _ _ _ _ _ (load_Some _ _ _ (Hp1 _))).
  rewrite (bind_Ret _ _ _ _ _ (update_Some _ _ _ _ (lookup_snoc_new h _))).
  rewrite alter_snoc.
  rewrite (bind_Ret _ _ _ _ _ (load_Some _ _ _ (Hp1 _))).
  rewrite (update_Some _ _ _ _ (Hp1 _)). reflexivity.
Qed.

Section Attach.
Variables (h : heap) (p : oid) (po x : TreeItem).
Hypothesis Hsh : shape_ok h.
Hypothesis Hun : unchecked h.
Hypothesis Hp : h !! p = Some po.
Hypothesis Hcls : parent_class_ok (cls x) (cls po) = true.
Hypothesis Hnokids : children x = [].
Hypothesis Hxun : checked x = false ∧ checked_children x = ∅ ∧
                  (is_filter (cls x) = true → checkable x = false).

Local Abbreviation n := (length h).
Local Abbreviation x' := (attached p po x).
Local Abbreviation po' := (with_children (children po ++ [length h]) po).
Local Abbreviation h' := (attach h p po x).

Lemma attach_lookup_parent : h' !! p = Some po'.
Proof.
  unfold attach. rewrite list_lookup_alter_eq.
  rewrite (lookup_app_l_Some _ _ _ _ Hp). reflexivity.
Qed.

Lemma attach_lookup_new : h' !! n = Some x'.
Proof.
  unfold attach. pose proof (lookup_lt_Some _ _ _ Hp) as Hlt.
  rewrite list_lookup_alter_ne by lia.
  apply lookup_snoc_new.
Qed.

Lemma attach_lookup_old (o : oid) (y : TreeItem) :
  o ≠ p → h !! o = Some y → h' !! o = Some y.
Proof.
  intros Hop Ho. unfold attach. rewrite list_lookup_alter_ne by congruence.
  apply lookup_app_l_Some, Ho.
Qed.

Lemma attach_lookup_inv (o : oid) (y : TreeItem) :
  h' !! o = Some y →
  (o = p ∧ y = po') ∨ (o = n ∧ y = x') ∨ (o ≠ p ∧ o ≠ n ∧ h !! o = Some y).
Proof.
  intros Ho. destruct (decide (o = p)) as [->|Hop].
  { left. rewrite attach_lookup_parent in Ho. split; congruence. }
  right. destruct (decide (o = n)) as [->|Hon].
  { left. rewrite attach_lookup_new in Ho. split; congruence. }
  right. repeat split; try assumption.
  unfold attach in Ho. rewrite list_lookup_alter_ne in Ho by congruence.
  apply lookup_app_Some in Ho as [Ho|[Hge Ho]]; [exact Ho|].
  apply list_lookup_singleton_Some in Ho as [Hz _]. lia.
Qed.

Lemma attach_not_own_child (i : nat) : children po !! i ≠ Some p.
Proof.
  intros Hi.
  destruct (shape_children _ Hsh _ _ _ _ Hp Hi) as (co & Hco & _ & _ & Hc).
  assert (co = po) as -> by congruence.
  destruct (cls po); simpl in Hc; congruence.
Qed.

Lemma attach_shape : shape_ok h'.
Proof.
  pose proof (lookup_lt_Some _ _ _ Hp) as Hplt.
  split.
  - intros q qo i c Hq Hc.
    apply attach_lookup_inv in Hq as [[-> ->]|[[-> ->]|(Hqp & Hqn & Hq)]].
    + simpl in Hc. apply lookup_app_Some in Hc as [Hc|[Hge Hc]].
      * destruct (shape_children _ Hsh _ _ _ _ Hp Hc)
          as (co & Hco & Hpar & Hrow & Hk).
        exists co. repeat split; try assumption.
        apply attach_lookup_old; [|exact Hco].
        intros ->. exact (attach_not_own_child i Hc).
      * apply list_lookup_singleton_Some in Hc as [Hz <-].
        exists x'. repeat split.
        -- apply attach_lookup_new.
        -- simpl. f_equal. lia.
        -- exact Hcls.
    + simpl in Hc. rewrite Hnokids in Hc. discriminate.
    + destruct (shape_children _ Hsh _ _ _ _ Hq Hc)
        as (co & Hco & Hpar & Hrow & Hk).
      destruct (decide (c = p)) as [->|Hcp].
      * assert (co = po) as -> by congruence.
        exists po'. repeat split; try assumption.
        apply attach_lookup_parent.
      * exists co. repeat split; try assumption.
        apply attach_lookup_old; assumption.
  - intros c co Hc Hroot.
    apply attach_lookup_inv in Hc as [[-> ->]|[[-> ->]|(Hcp & Hcn & Hc)]].
    + destruct (shape_parent _ Hsh _ _ Hp Hroot)
        as (q & qo & i & Hpar & Hq & Hrow & Hi).
      exists q, qo, i. repeat split; try assumption.
      apply attach_lookup_old; [|exact Hq].
      intros ->. assert (qo = po) as -> by congruence.
      exact (attach_not_own_child i Hi).
    + exists p, po', (length (children po)). repeat split.
      * apply attach_lookup_parent.
      * simpl. apply list_lookup_middle. reflexivity.
    + destruct (shape_parent _ Hsh _ _ Hc Hroot)
        as (q & qo & i & Hpar & Hq & Hrow & Hi).
      destruct (decide (q = p)) as [->|Hqp].
      * assert (qo = po) as -> by congruence.
        exists p, po', i. repeat split; try assumption.
        -- apply attach_lookup_parent.
        -- simpl. apply lookup_app_l_Some, Hi.
      * exists q, qo, i. repeat split; try assumption.
        apply attach_lookup_old; assumption.
Qed.

Lemma attach_unchecked : unchecked h'.
Proof.
  intros o y Ho.
  apply attach_lookup_inv in Ho as [[-> ->]|[[-> ->]|(_ & _ & Ho)]].
  - exact (Hun _ _ Hp).
  - exact Hxun.
  - exact (Hun _ _ Ho).
Qed.

Lemma attach_keeps_class (o : oid) (y : TreeItem) :
  h !! o = Some y → ∃ y', h' !! o = Some y' ∧ cls y' = cls y.
Proof.
  intros Ho. destruct (decide (o = p)) as [->|Hop].
  - exists po'. split; [apply attach_lookup_parent|].
    assert (y = po) as -> by congruence. reflexivity.
  - exists y. split; [|reflexivity]. apply attach_lookup_old; assumption.
Qed.

End Attach.

Lemma add_variants_ok (vs : list SongMatch) (h : heap) (item : oid)
    (io : TreeItem) :
  shape_ok h → unchecked h →
  h !! item = Some io → is_filter (cls io) = true →
  ∃ h', add_variants item vs h = Ret () h' ∧ shape_ok h' ∧ unchecked h' ∧
        ∀ o y, h !! o = Some y → ∃ y', h' !! o = Some y' ∧ cls y' = cls y.
Proof.
  revert h io. induction vs as [|m vs IH]; intros h io Hsh Hun Hi Hfil.
  - exists h. split; [reflexivity|]. split; [exact Hsh|]. split; [exact Hun|].
    intros o y Ho. eauto.
  - unfold add_variants. cbn [for_each]. rewrite bind_eq.
    unfold new_VariantItem at 1. rewrite bind_eq. unfold alloc at 1.
    set (x := mkTreeItem (VariantItem m) (Some item) 0 [] false true ∅).
    rewrite (add_child_new h item io x Hi (has_add_child_filter _ Hfil)).
    assert (Hcls : parent_class_ok (cls x) (cls io) = true).
    { destruct (cls io); simpl in *; congruence. }
    assert (Hxun : checked x = false ∧ checked_children x = ∅ ∧
                   (is_filter (cls x) = true → checkable x = false)).
    { repeat split. simpl. discriminate. }
    match goal with |- context [for_each vs ?b ?hh] => set (h1 := hh) end.
    destruct (attach_keeps_class h item io x Hi item io Hi) as (io' & Hi' & Hc').
    destruct (IH h1 io') as (h' & Hrun & Hsh' & Hun' & Hk').
    + apply attach_shape; try assumption. reflexivity.
    + apply attach_unchecked; assumption.
    + exact Hi'.
    + congruence.
    + exists h'. split; [exact Hrun|]. split; [exact Hsh'|].
      split; [exact Hun'|]. intros o y Ho.
      destruct (attach_keeps_class h item io x Hi o y Ho) as (y1 & Hy1 & Hc1).
      destruct (Hk' _ _ Hy1) as (y2 & Hy2 & Hc2).
      exists y2. split; [exact Hy2|congruence].
Qed.

Lemma add_filter_ok (entry : Filter * list SongMatch) (h : heap) (root : oid)
    (ro : TreeItem) :
  shape_ok h → unchecked h →
  h !! root = Some ro → cls ro = RootItem →
  ∃ h', add_filter root entry h = Ret () h' ∧ shape_ok h' ∧ unchecked h' ∧
        ∀ o y, h !! o = Some y → ∃ y', h' !! o = Some y' ∧ cls y' = cls y.
Proof.
  intros Hsh Hun Hr Hroot. unfold add_filter.
  unfold new_FilterItem. rewrite bind_eq. unfold alloc at 1.
  set (x := mkTreeItem (FilterItem entry.1) (Some root) 0 [] false false ∅).
  assert (Hk : has_add_child (cls ro) = true) by (rewrite Hroot; reflexivity).
  rewrite bind_eq, (add_child_new h root ro x Hr Hk).
  assert (Hcls : parent_class_ok (cls x) (cls ro) = true).
  { rewrite Hroot. reflexivity. }
  assert (Hxun : checked x = false ∧ checked_children x = ∅ ∧
                 (is_filter (cls x) = true → checkable x = false)).
  { repeat split. }
  match goal with |- context [add_variants _ _ ?hh] => set (h1 := hh) end.
  destruct (add_variants_ok entry.2 h1 (length h) (attached root ro x))
    as (h' & Hrun & Hsh' & Hun' & Hk').
  - apply attach_shape; try assumption. reflexivity.
  - apply attach_unchecked; assumption.
  - apply attach_lookup_new. exact Hr.
  - reflexivity.
  - exists h'. split; [exact Hrun|]. split; [exact Hsh'|].
    split; [exact Hun'|]. intros o y Ho.
    destruct (attach_keeps_class h root ro x Hr o y Ho) as (y1 & Hy1 & Hc1).
    destruct (Hk' _ _ Hy1) as (y2 & Hy2 & Hc2).
    exists y2. split; [exact Hy2|congruence].
Qed.

Lemma add_filters_ok (cat : list (Filter * list SongMatch)) (h : heap)
    (root : oid) (ro : TreeItem) :
  shape_ok h → unchecked h →
  h !! root = Some ro → cls ro = RootItem →
  ∃ h', for_each cat (add_filter root) h = Ret () h' ∧
        shape_ok h' ∧ unchecked h' ∧
        ∃ ro', h' !! root = Some ro' ∧ cls ro' = RootItem.
Proof.
  revert h ro. induction cat as [|entry cat IH]; intros h ro Hsh Hun Hr Hroot.
  - exists h. split; [reflexivity|]. split; [exact Hsh|]. split; [exact Hun|].
    eauto.
  - cbn [for_each].
    destruct (add_filter_ok entry h root ro Hsh Hun Hr Hroot)
      as (h1 & Hrun & Hsh1 & Hun1 & Hk1).
    rewrite (bind_Ret _ _ _ _ _ Hrun).
    destruct (Hk1 _ _ Hr) as (ro1 & Hr1 & Hc1).
    apply (IH h1 ro1); try assumption. congruence.
Qed.

Lemma unchecked_checks_ok (h : heap) : unchecked h → checks_ok h.
Proof.
  intros Hun. split.
  - intros f fo Hf Hfil. destruct (Hun _ _ Hf) as (Hc & Hcc & Hck).
    left. repeat split; auto.
  - intros v vo p po Hv _ _ Hp.
    destruct (Hun _ _ Hv) as (Hc & _). destruct (Hun _ _ Hp) as (_ & Hcc & _).
    rewrite Hc, Hcc. split; [discriminate|].
    intros Hin. apply not_elem_of_empty in Hin. destruct Hin.
Qed.

(** Building never fails, and the fresh tree is well shaped with nothing
    checked. *)
Lemma build_tree_ok (cat : list (Filter * list SongMatch)) :
  ∃ h, build_tree cat [] = Ret 0 h ∧ tree_ok h ∧ unchecked h ∧
       ∃ ro, h !! 0 = Some ro ∧ cls ro = RootItem.
Proof.
  unfold build_tree, new_RootItem. rewrite bind_eq. unfold alloc. simpl.
  set (r := mkTreeItem RootItem None 0 [] false false ∅).
  destruct (add_filters_ok cat [r] 0 r) as (h & Hrun & Hsh & Hun & Hroot).
  - split.
    + intros p po i c Hp Hc. destruct p; simpl in Hp; [|discriminate].
      injection Hp as <-. simpl in Hc. discriminate.
    + intros c co Hc Hnr. destruct c; simpl in Hc; [|discriminate].
      injection Hc as <-. simpl in Hnr. discriminate.
  - intros o y Ho. destruct o; simpl in Ho; [|discriminate].
    injection Ho as <-. repeat split.
  - reflexivity.
  - reflexivity.
  - exists h. rewrite (bind_Ret _ _ _ _ _ Hrun). split; [reflexivity|].
    split; [split; [exact Hsh|apply unchecked_checks_ok, Hun]|].
    split; [exact Hun|exact Hroot].
Qed.

(** Every reachable state is consistent and keeps its root. *)
Lemma reachable_ok (root : oid) (h : heap) :
  reachable root h →
  tree_ok h ∧ ∃ ro, h !! root = Some ro ∧ cls ro = RootItem.
Proof.
  induction 1 as [cat h Hb|h o Hr [Hok (ro & Hro & Hcls)] Ho].
  - destruct (build_tree_ok cat) as (h0 & Hb0 & Hok & _ & Hroot).
    rewrite Hb0 in Hb. injection Hb as <- <-. split; assumption.
  - destruct (toggle_checked_ok h o Hok Ho) as (h' & Hrun & Hok').
    pose proof (toggle_checked_framed o h) as Hfr.
    rewrite Hrun in *. simpl in *. split; [exact Hok'|].
    destruct (framed_lookup _ _ _ _ _ Hfr Hro) as (ro' & Hro' & Hs).
    exists ro'. split; [exact Hro'|]. unfold shape_of in Hs. congruence.
Qed.

End BuildFacts.

(** * The state machine of the check marks *)

Section StateMachine.
Import Song Match Tree.

(** Ticking an unchecked variant. *)
Lemma VariantItem_toggle_unchecked (h : heap) (v : oid) (vo : TreeItem) :
  tree_ok h → h !! v = Some vo → is_variant (cls vo) = true →
  checked vo = false →
  ∃ f fo i h',
    parent vo = Some f ∧ h !! f = Some fo ∧ is_filter (cls fo) = true ∧
    row_in_parent vo = Z.of_nat i ∧ children fo !! i = Some v ∧
    toggle_checked v h = Ret () h' ∧ tree_ok h' ∧
    h' !! f = Some (mkTreeItem (cls fo) (parent fo) (row_in_parent fo)
                      (children fo) true true {[row_in_parent vo]}) ∧
    h' !! v = Some (with_checked true vo) ∧
    ∀ c, c ∈ children fo → c ≠ v →
         ∃ co, h !! c = Some co ∧ h' !! c = Some (with_checked false co).
Proof.
  intros Hok Hv Hvar Hchk.
  destruct (shape_parent_of_variant h v vo (proj1 Hok) Hv Hvar)
    as (f & fo & i & Hpar & Hf & Hfil & Hrow & Hi & Hvf).
  destruct (check_child_spec h f fo i v (proj1 Hok) Hf Hfil Hi)
    as (h' & Hrun & Hf' & (vo0 & Hvo0 & Hv') & Hlk).
  assert (vo0 = vo) as -> by congruence.
  destruct (check_child_ok h f fo i v Hok Hf Hfil Hi) as (h'' & Hrun' & Hok').
  assert (h'' = h') as -> by congruence.
  exists f, fo, i, h'. repeat (split; [assumption|]).
  split.
  { unfold toggle_checked.
    rewrite (bind_Ret _ _ _ _ _ (load_Some _ _ _ Hv)).
    destruct (cls vo); try discriminate.
    unfold VariantItem_toggle_checked.
    rewrite (bind_Ret _ _ _ _ _ (load_Some _ _ _ Hv)).
    rewrite Hpar, Hchk, Hrow. exact Hrun. }
  split; [exact Hok'|]. split; [rewrite Hrow; exact Hf'|].
  split; [exact Hv'|].
  intros c Hc Hcv.
  apply list_elem_of_lookup_1 in Hc as [j Hj].
  destruct (shape_child_of_filter _ _ _ _ _ (proj1 Hok) Hf Hfil Hj)
    as (co & Hco & _ & _ & _ & Hcf).
  exists co. split; [exact Hco|].
  rewrite Hlk, Hco by assumption. simpl.
  rewrite bool_decide_eq_true_2; [reflexivity|].
  eapply list_elem_of_lookup_2. exact Hj.
Qed.

(** Unticking: [uncheck_children] on a filter of a consistent tree. *)
Lemma uncheck_children_clears (h : heap) (f : oid) (fo : TreeItem) :
  tree_ok h → h !! f = Some fo → is_filter (cls fo) = true →
  ∃ h', uncheck_children f h = Ret () h' ∧ tree_ok h' ∧
        h' !! f = Some (mkTreeItem (cls fo) (parent fo) (row_in_parent fo)
                          (children fo) false false ∅) ∧
        ∀ c, c ∈ children fo →
             ∃ co, h !! c = Some co ∧ h' !! c = Some (with_checked false co).
Proof.
  intros Hok Hf Hfil.
  destruct (uncheck_children_spec h f fo (proj1 Hok) Hf Hfil)
    as (h' & Hrun & Hf' & Hlk).
  destruct (uncheck_children_ok h f fo Hok Hf Hfil) as (h'' & Hrun' & Hok').
  assert (h'' = h') as -> by congruence.
  exists h'. repeat (split; [assumption|]).
  intros c Hc. pose proof Hc as Hin.
  apply list_elem_of_lookup_1 in Hc as [j Hj].
  destruct (shape_child_of_filter _ _ _ _ _ (proj1 Hok) Hf Hfil Hj)
    as (co & Hco & _ & _ & _ & Hcf).
  exists co. split; [exact Hco|].
  rewrite Hlk, Hco by assumption. simpl.
  rewrite bool_decide_eq_true_2 by exact Hin. reflexivity.
Qed.

(** A checked variant unticks through its parent. *)
Lemma VariantItem_toggle_checked_eq (h : heap) (v f : oid) (vo : TreeItem) :
  h !! v = Some vo → is_variant (cls vo) = true → parent vo = Some f →
  checked vo = true →
  toggle_checked v h = uncheck_children f h.
Proof.
  intros Hv Hvar Hpar Hchk. unfold toggle_checked.
  rewrite (bind_Ret _ _ _ _ _ (load_Some _ _ _ Hv)).
  destruct (cls vo); try discriminate.
  unfold VariantItem_toggle_checked.
  rewrite (bind_Ret _ _ _ _ _ (load_Some _ _ _ Hv)).
  rewrite Hpar, Hchk. reflexivity.
Qed.

Lemma FilterItem_toggle_checked_eq (h : heap) (f : oid) (fo : TreeItem) :
  h !! f = Some fo → is_filter (cls fo) = true →
  toggle_checked f h =
  if checked fo then uncheck_children f h else Ret () h.
Proof.
  intros Hf Hfil. unfold toggle_checked.
  rewrite (bind_Ret _ _ _ _ _ (load_Some _ _ _ Hf)).
  destruct (cls fo); try discriminate.
  unfold FilterItem_toggle_checked.
  rewrite (bind_Ret _ _ _ _ _ (load_Some _ _ _ Hf)).
  destruct (checked fo); reflexivity.
Qed.

(** C2: in every state reachable from a freshly built tree by toggling,
    every filter has at most one checked child index, its [checked] and
    [checkable] flags are both set exactly when that set is not empty, and
    every variant is checked exactly when its row is in the set of its
    parent. *)
Theorem single_select_invariant (root : oid) (h : heap) :
  reachable root h →
  (∀ f fo, h !! f = Some fo → is_filter (cls fo) = true →
     size (checked_children fo) ≤ 1 ∧
     (checked fo = true ∧ checkable fo = true ↔ checked_children fo ≠ ∅)) ∧
  (∀ v vo, h !! v = Some vo → is_variant (cls vo) = true →
     ∃ f fo, parent vo = Some f ∧ h !! f = Some fo ∧
             is_filter (cls fo) = true ∧
             (checked vo = true ↔
              row_in_parent vo ∈ checked_children fo)).
Proof.
  intros Hr. destruct (reachable_ok root h Hr) as [[Hsh Hck] _]. split.
  - intros f fo Hf Hfil.
    destruct (checks_filter _ Hck _ _ Hf Hfil)
      as [(Hcc & Hc & Hk)|(i & Hcc & _ & Hc & Hk)]; rewrite Hcc, Hc, Hk.
    + rewrite size_empty. split; [lia|]. split; [intros [? _]; discriminate|done].
    + rewrite size_singleton. split; [lia|]. split; [|done].
      intros _ He. assert (Hin : Z.of_nat i ∈ (∅ : gset Z)).
      { rewrite <- He. apply elem_of_singleton. reflexivity. }
      apply not_elem_of_empty in Hin. exact Hin.
  - intros v vo Hv Hvar.
    destruct (shape_parent_of_variant h v vo Hsh Hv Hvar)
      as (f & fo & i & Hpar & Hf & Hfil & _).
    exists f, fo. repeat (split; [assumption|]).
    eapply (checks_variant _ Hck); eassumption.
Qed.

(** C3: toggling an unchecked variant constrains its filter on that
    variant alone; checking another variant afterwards replaces it. *)
Theorem VariantItem_check_replaces (root : oid) (h : heap) (v : oid)
    (vo : TreeItem) :
  reachable root h → h !! v = Some vo → is_variant (cls vo) = true →
  checked vo = false →
  ∃ f fo h',
    parent vo = Some f ∧ h !! f = Some fo ∧
    toggle_checked v h = Ret () h' ∧
    (∃ fo', h' !! f = Some fo' ∧
            checked_children fo' = {[row_in_parent vo]} ∧
            checked fo' = true ∧ checkable fo' = true) ∧
    (∃ vo', h' !! v = Some vo' ∧ checked vo' = true) ∧
    (∀ c, c ∈ children fo → c ≠ v →
          ∃ co', h' !! c = Some co' ∧ checked co' = false) ∧
    (∀ w wo, w ∈ children fo → w ≠ v → h !! w = Some wo →
       ∃ h'', toggle_checked w h' = Ret () h'' ∧
         (∃ fo'', h'' !! f = Some fo'' ∧
                  checked_children fo'' = {[row_in_parent wo]} ∧
                  checked fo'' = true ∧ checkable fo'' = true) ∧
         (∃ wo'', h'' !! w = Some wo'' ∧ checked wo'' = true) ∧
         (∀ c, c ∈ children fo → c ≠ w →
               ∃ co'', h'' !! c = Some co'' ∧ checked co'' = false)).
Proof.
  intros Hr Hv Hvar Hchk.
  destruct (reachable_ok root h Hr) as [Hok _].
  destruct (VariantItem_toggle_unchecked h v vo Hok Hv Hvar Hchk)
    as (f & fo & i & h' & Hpar & Hf & Hfil & Hrow & Hi & Hrun & Hok' & Hf' & Hv' & Hsib).
  exists f, fo, h'. repeat (split; [assumption|]).
  split; [eexists; split; [exact Hf'|]; repeat split|].
  split; [eexists; split; [exact Hv'|]; reflexivity|].
  split.
  { intros c Hc Hcv. destruct (Hsib c Hc Hcv) as (co & _ & Hc').
    eexists. split; [exact Hc'|reflexivity]. }
  intros w wo Hw Hwv Hwo.
  destruct (Hsib w Hw Hwv) as (wo0 & Hwo0 & Hw').
  assert (wo0 = wo) as -> by congruence.
  apply list_elem_of_lookup_1 in Hw as [j Hj].
  destruct (shape_child_of_filter _ _ _ _ _ (proj1 Hok) Hf Hfil Hj)
    as (wo1 & Hwo1 & Hwpar & _ & Hwvar & _).
  assert (wo1 = wo) as -> by congruence.
  destruct (VariantItem_toggle_unchecked h' w (with_checked false wo) Hok' Hw')
    as (f2 & fo2 & j2 & h'' & Hpar2 & Hf2 & _ & _ & _ & Hrun2 & _ & Hf'' & Hw'' & Hsib2);
    [exact Hwvar|reflexivity|].
  simpl in Hpar2. assert (f2 = f) as -> by congruence.
  rewrite Hf' in Hf2. injection Hf2 as <-. simpl in *.
  exists h''. split; [exact Hrun2|].
  split; [eexists; split; [exact Hf''|]; repeat split|].
  split; [eexists; split; [exact Hw''|]; reflexivity|].
  intros c Hc Hcw. destruct (Hsib2 c Hc Hcw) as (co & _ & Hc').
  eexists. split; [exact Hc'|reflexivity].
Qed.

(** C4: on any consistent tree, whatever the filter is constrained on,
    toggling an unchecked variant checks it (the filter is then
    constrained on that variant alone, with both flags set), and toggling
    it again leaves its filter unconstrained, with both flags cleared and
    no child checked. *)
Theorem retoggle_clears (h : heap) (f : oid) (fo : TreeItem)
    (i : nat) (v : oid) (vo : TreeItem) :
  tree_ok h → h !! f = Some fo → is_filter (cls fo) = true →
  children fo !! i = Some v → h !! v = Some vo → checked vo = false →
  ∃ h1 h2,
    toggle_checked v h = Ret () h1 ∧
    (∃ fo1, h1 !! f = Some fo1 ∧ checked_children fo1 = {[Z.of_nat i]} ∧
            checked fo1 = true ∧ checkable fo1 = true ∧
            children fo1 = children fo) ∧
    (∃ vo1, h1 !! v = Some vo1 ∧ checked vo1 = true) ∧
    (∀ c, c ∈ children fo → c ≠ v →
          ∃ co1, h1 !! c = Some co1 ∧ checked co1 = false) ∧
    toggle_checked v h1 = Ret () h2 ∧
    (∃ fo2, h2 !! f = Some fo2 ∧ checked_children fo2 = ∅ ∧
            checked fo2 = false ∧ checkable fo2 = false ∧
            children fo2 = children fo) ∧
    (∀ c, c ∈ children fo → ∃ co2, h2 !! c = Some co2 ∧ checked co2 = false).
Proof.
  intros Hok Hf Hfil Hi Hv Hchk.
  destruct (shape_child_of_filter _ _ _ _ _ (proj1 Hok) Hf Hfil Hi)
    as (vo0 & Hvo0 & Hvpar & Hvrow & Hvar & _).
  assert (vo0 = vo) as -> by congruence.
  destruct (VariantItem_toggle_unchecked h v vo Hok Hv Hvar Hchk)
    as (f1 & fo1 & i1 & h1 & Hpar & Hf1 & _ & _ & _ & Hrun1 & Hok1 & Hf' & Hv' & Hsib).
  assert (f1 = f) as -> by congruence.
  assert (fo1 = fo) as -> by congruence.
  destruct (uncheck_children_clears h1 f _ Hok1 Hf' Hfil)
    as (h2 & Hrun2 & _ & Hf2 & Hkids).
  exists h1, h2. split; [exact Hrun1|].
  split; [eexists; split; [exact Hf'|]; rewrite <- Hvrow; repeat split|].
  split; [eexists; split; [exact Hv'|]; reflexivity|].
  split.
  { intros c Hc Hcv. destruct (Hsib c Hc Hcv) as (co & _ & Hc').
    eexists. split; [exact Hc'|reflexivity]. }
  split.
  { rewrite (VariantItem_toggle_checked_eq h1 v f _ Hv' Hvar Hvpar eq_refl).
    exact Hrun2. }
  split; [eexists; split; [exact Hf2|]; repeat split|].
  intros c Hc. destruct (Hkids c Hc) as (co & _ & Hc').
  eexists. split; [exact Hc'|reflexivity].
Qed.

(** C5: toggling a constrained filter does exactly what unchecking its
    checked variant does, and leaves it unconstrained; toggling an
    unconstrained filter changes nothing. *)
Theorem FilterItem_toggle_checked_spec (root : oid) (h : heap) (f : oid)
    (fo : TreeItem) :
  reachable root h → h !! f = Some fo → is_filter (cls fo) = true →
  (checked_children fo ≠ ∅ →
   ∃ h', toggle_checked f h = Ret () h' ∧
     (∃ v vo, v ∈ children fo ∧ h !! v = Some vo ∧ checked vo = true ∧
              checked_children fo = {[row_in_parent vo]} ∧
              toggle_checked v h = Ret () h') ∧
     (∃ fo', h' !! f = Some fo' ∧ checked_children fo' = ∅ ∧
             checked fo' = false ∧ checkable fo' = false) ∧
     (∀ c, c ∈ children fo →
           ∃ co', h' !! c = Some co' ∧ checked co' = false)) ∧
  (checked_children fo = ∅ → toggle_checked f h = Ret () h).
Proof.
  intros Hr Hf Hfil. destruct (reachable_ok root h Hr) as [Hok _].
  rewrite (FilterItem_toggle_checked_eq h f fo Hf Hfil).
  destruct (checks_filter _ (proj2 Hok) _ _ Hf Hfil)
    as [(Hcc & Hc & Hk)|(i & Hcc & Hlt & Hc & Hk)]; rewrite Hc.
  - split; [|reflexivity]. intros Hne. contradiction.
  - split.
    2:{ intros He. rewrite He in Hcc.
        assert (Hin : Z.of_nat i ∈ (∅ : gset Z)).
        { rewrite Hcc. apply elem_of_singleton. reflexivity. }
        apply not_elem_of_empty in Hin. destruct Hin. }
    intros _.
    destruct (uncheck_children_clears h f fo Hok Hf Hfil)
      as (h' & Hrun & _ & Hf' & Hkids).
    exists h'. split; [exact Hrun|].
    destruct (lookup_lt_is_Some_2 _ _ Hlt) as [v Hv].
    destruct (shape_child_of_filter _ _ _ _ _ (proj1 Hok) Hf Hfil Hv)
      as (vo & Hvo & Hvpar & Hvrow & Hvar & _).
    assert (Hvchk : checked vo = true).
    { apply (checks_variant _ (proj2 Hok) v vo f fo Hvo Hvar Hvpar Hf).
      rewrite Hcc, Hvrow. apply elem_of_singleton. reflexivity. }
    split.
    { exists v, vo. split; [eapply list_elem_of_lookup_2; exact Hv|].
      split; [exact Hvo|]. split; [exact Hvchk|].
      split; [rewrite Hvrow; exact Hcc|].
      rewrite (VariantItem_toggle_checked_eq h v f vo Hvo Hvar Hvpar Hvchk).
      exact Hrun. }
    split; [eexists; split; [exact Hf'|]; repeat split|].
    intros c Hc0. destruct (Hkids c Hc0) as (co & _ & Hc').
    eexists. split; [exact Hc'|reflexivity].
Qed.

End StateMachine.

(** * Queries, frames and totality *)

Section Queries.
Import Song Match Tree.

Lemma any_of_spec {A} (l : list A) (body : A → M bool) (P : A → Prop)
    (h : heap) :
  (∀ a, a ∈ l → ∃ b, body a h = Ret b h ∧ (b = true ↔ P a)) →
  ∃ b, any_of l body h = Ret b h ∧ (b = true ↔ ∃ a, a ∈ l ∧ P a).
Proof.
  induction l as [|a l IH]; intros Hbody; cbn [any_of].
  - exists false. split; [reflexivity|]. split; [discriminate|].
    intros (a & Ha & _). apply elem_of_nil in Ha. destruct Ha.
  - destruct (Hbody a) as (b & Hb & HP); [left|].
    rewrite (bind_Ret _ _ _ _ _ Hb). destruct b.
    + exists true. split; [reflexivity|]. split; [|reflexivity].
      intros _. exists a. split; [left|]. apply HP. reflexivity.
    + destruct IH as (b' & Hb' & HP').
      { intros a' Ha'. apply Hbody. right. exact Ha'. }
      exists b'. split; [exact Hb'|]. rewrite HP'. split.
      * intros (a' & Ha' & Hp'). exists a'. split; [right|]; assumption.
      * intros (a' & Ha' & Hp'). apply elem_of_cons in Ha' as [->|Ha'].
        -- apply HP in Hp'. discriminate.
        -- exists a'. split; assumption.
Qed.

Lemma all_of_true {A} (l : list A) (body : A → M bool) (h : heap) :
  (∀ a, a ∈ l → body a h = Ret true h) →
  all_of l body h = Ret true h.
Proof.
  induction l as [|a l IH]; intros Hbody; cbn [all_of]; [reflexivity|].
  rewrite (bind_Ret _ _ _ _ _ (Hbody a ltac:(left))).
  apply IH. intros a' Ha'. apply Hbody. right. exact Ha'.
Qed.

(** A non-negative index below the length subscripts without error. *)
Lemma py_getitem_in_bounds {A} (l : list A) (i : Z) :
  (0 ≤ i < Z.of_nat (length l))%Z → ∃ a, py_getitem l i = Ok a.
Proof.
  intros Hi.
  destruct (lookup_lt_is_Some_2 l (Z.to_nat i)) as [a Ha]; [lia|].
  exists a. rewrite <- (Z2Nat.id i) by lia. apply py_getitem_nat, Ha.
Qed.

(** One step of the generator inside [FilterItem.accepts_song]. *)
Lemma accepts_song_child (h : heap) (f : oid) (fo : TreeItem)
    (song : SongData) (i : Z) :
  shape_ok h → h !! f = Some fo → is_filter (cls fo) = true →
  (0 ≤ i < Z.of_nat (length (children fo)))%Z →
  ∃ b, (y ← load f;
        c ← lift (py_getitem (children y) i);
        VariantItem_accepts_song c song) h = Ret b h ∧
       (b = true ↔
        ∃ v vo m, py_getitem (children fo) i = Ok v ∧ h !! v = Some vo ∧
                  cls vo = VariantItem m ∧ matches_song m song = Ok true).
Proof.
  intros Hsh Hf Hfil Hi.
  destruct (lookup_lt_is_Some_2 (children fo) (Z.to_nat i)) as [v Hv]; [lia|].
  assert (Hget : py_getitem (children fo) i = Ok v).
  { rewrite <- (Z2Nat.id i) by lia. apply py_getitem_nat, Hv. }
  destruct (shape_child_of_filter _ _ _ _ _ Hsh Hf Hfil Hv)
    as (vo & Hvo & _ & _ & Hvar & _).
  destruct (cls vo) as [|d|m] eqn:Hcls; try discriminate.
  destruct (matches_song_total m song) as [b Hb].
  exists b. split.
  - rewrite (bind_Ret _ _ _ _ _ (load_Some _ _ _ Hf)). rewrite Hget.
    unfold lift at 1. unfold mret, M_ret. rewrite bind_eq.
    unfold VariantItem_accepts_song.
    rewrite (bind_Ret _ _ _ _ _ (load_Some _ _ _ Hvo)).
    rewrite Hcls, Hb. reflexivity.
  - split.
    + intros ->. exists v, vo, m. repeat split; assumption.
    + intros (v' & vo' & m' & Hget' & Hvo' & Hcls' & Hm').
      assert (v' = v) as -> by congruence.
      assert (vo' = vo) as -> by congruence.
      assert (m' = m) as -> by congruence. congruence.
Qed.

(** [FilterItem.accepts_song] on any set of in-range indices, whatever
    its size and whatever the order of the visit: true iff the set is
    empty or some checked child matches. *)
Lemma FilterItem_accepts_song_by_any_set (visit : gset Z → list Z)
    (h : heap) (f : oid) (fo : TreeItem) (song : SongData) :
  shape_ok h → h !! f = Some fo → is_filter (cls fo) = true →
  (∀ i, i ∈ visit (checked_children fo) ↔ i ∈ checked_children fo) →
  (∀ i, i ∈ checked_children fo →
        (0 ≤ i < Z.of_nat (length (children fo)))%Z) →
  ∃ b, FilterItem_accepts_song_by visit f song h = Ret b h ∧
       (b = true ↔
        checked_children fo = ∅ ∨
        ∃ i v vo m, i ∈ checked_children fo ∧
                    py_getitem (children fo) i = Ok v ∧ h !! v = Some vo ∧
                    cls vo = VariantItem m ∧ matches_song m song = Ok true).
Proof.
  intros Hsh Hf Hfil Hvisit Hin. unfold FilterItem_accepts_song_by.
  rewrite (bind_Ret _ _ _ _ _ (as_filter_Some _ _ _ Hf Hfil)).
  destruct (bool_decide (checked_children fo = ∅)) eqn:He.
  - apply bool_decide_eq_true_1 in He. exists true.
    split; [reflexivity|]. split; [|reflexivity]. intros _. left. exact He.
  - apply bool_decide_eq_false_1 in He.
    destruct (any_of_spec (visit (checked_children fo))
                (λ i, y ← load f;
                      c ← lift (py_getitem (children y) i);
                      VariantItem_accepts_song c song)
                (λ i, ∃ v vo m, py_getitem (children fo) i = Ok v ∧
                                h !! v = Some vo ∧ cls vo = VariantItem m ∧
                                matches_song m song = Ok true) h)
      as (b & Hb & HP).
    { intros i Hi. apply Hvisit in Hi.
      apply (accepts_song_child h f fo song i Hsh Hf Hfil (Hin i Hi)). }
    exists b. split; [exact Hb|]. rewrite HP. split.
    + intros (i & Hi & Hrest). right. exists i.
      apply Hvisit in Hi.
      destruct Hrest as (v & vo & m & Hrest). exists v, vo, m.
      split; assumption.
    + intros [Hempty|(i & v & vo & m & Hi & Hrest)]; [contradiction|].
      exists i. split; [apply Hvisit, Hi|]. exists v, vo, m.
      exact Hrest.
Qed.

Lemma FilterItem_accepts_song_any_set (h : heap) (f : oid) (fo : TreeItem)
    (song : SongData) :
  shape_ok h → h !! f = Some fo → is_filter (cls fo) = true →
  (∀ i, i ∈ checked_children fo →
        (0 ≤ i < Z.of_nat (length (children fo)))%Z) →
  ∃ b, FilterItem_accepts_song f song h = Ret b h ∧
       (b = true ↔
        checked_children fo = ∅ ∨
        ∃ i v vo m, i ∈ checked_children fo ∧
                    py_getitem (children fo) i = Ok v ∧ h !! v = Some vo ∧
                    cls vo = VariantItem m ∧ matches_song m song = Ok true).
Proof.
  intros Hsh Hf Hfil Hin.
  apply (FilterItem_accepts_song_by_any_set elements h f fo song Hsh Hf Hfil);
    [|exact Hin].
  intros i. apply elem_of_elements.
Qed.

Lemma checks_ok_in_bounds (h : heap) (f : oid) (fo : TreeItem) :
  checks_ok h → h !! f = Some fo → is_filter (cls fo) = true →
  ∀ i, i ∈ checked_children fo →
       (0 ≤ i < Z.of_nat (length (children fo)))%Z.
Proof.
  intros Hck Hf Hfil i Hi.
  destruct (checks_filter _ Hck _ _ Hf Hfil)
    as [(Hcc & _)|(j & Hcc & Hlt & _)]; rewrite Hcc in Hi.
  - apply not_elem_of_empty in Hi. destruct Hi.
  - apply elem_of_singleton in Hi as ->. lia.
Qed.

(** C7: on any well-shaped tree, for any set of checked indices inside
    the tuple of children (one or several) and whatever the order in which
    the set is visited, a filter accepts a song iff nothing is checked or
    some checked variant matches the song; a tree in which no filter is
    constrained accepts every song.  Every state reachable by toggling
    has its checked indices inside the tuple. *)
Theorem FilterItem_accepts_song_spec (visit : gset Z → list Z) (h : heap) :
  (∀ s, visit s ≡ₚ elements s) → shape_ok h →
  (∀ f fo song, h !! f = Some fo → is_filter (cls fo) = true →
     (∀ i, i ∈ checked_children fo →
           (0 ≤ i < Z.of_nat (length (children fo)))%Z) →
     ∃ b, FilterItem_accepts_song_by visit f song h = Ret b h ∧
          (b = true ↔
           checked_children fo = ∅ ∨
           ∃ i v vo m, i ∈ checked_children fo ∧
                       py_getitem (children fo) i = Ok v ∧
                       h !! v = Some vo ∧ cls vo = VariantItem m ∧
                       matches_song m song = Ok true)) ∧
  (∀ root ro, h !! root = Some ro → cls ro = RootItem →
     (∀ f fo, h !! f = Some fo → is_filter (cls fo) = true →
              checked_children fo = ∅) →
     ∀ song,
       (∀ f fo, h !! f = Some fo → is_filter (cls fo) = true →
                FilterItem_accepts_song_by visit f song h = Ret true h) ∧
       accepts root song h = Ret true h) ∧
  (∀ root, reachable root h →
     ∀ f fo, h !! f = Some fo → is_filter (cls fo) = true →
       ∀ i, i ∈ checked_children fo →
            (0 ≤ i < Z.of_nat (length (children fo)))%Z).
Proof.
  intros Hvisit Hsh.
  assert (Hmem : ∀ (s : gset Z) i, i ∈ visit s ↔ i ∈ s).
  { intros s i. rewrite (Hvisit s). apply elem_of_elements. }
  split; [|split].
  - intros f fo song Hf Hfil Hin.
    apply FilterItem_accepts_song_by_any_set; try assumption.
    apply Hmem.
  - intros root ro Hro Hcls Hnone song.
    assert (Hall : ∀ visit' f fo,
              h !! f = Some fo → is_filter (cls fo) = true →
              FilterItem_accepts_song_by visit' f song h = Ret true h).
    { intros visit' f fo Hfo Hfil. unfold FilterItem_accepts_song_by.
      rewrite (bind_Ret _ _ _ _ _ (as_filter_Some _ _ _ Hfo Hfil)).
      rewrite bool_decide_eq_true_2 by (eapply Hnone; eassumption).
      reflexivity. }
    split; [apply Hall|]. unfold accepts.
    rewrite (bind_Ret _ _ _ _ _ (load_Some _ _ _ Hro)).
    apply all_of_true. intros f Hf.
    apply list_elem_of_lookup_1 in Hf as [i Hi].
    destruct (shape_children _ Hsh _ _ _ _ Hro Hi) as (fo & Hfo & _ & _ & Hk).
    apply (Hall elements f fo Hfo).
    rewrite Hcls in Hk. destruct (cls fo); simpl in *; congruence.
  - intros root Hr f fo Hf Hfil.
    destruct (reachable_ok root h Hr) as [[_ Hck] _].
    apply (checks_ok_in_bounds h f fo Hck Hf Hfil).
Qed.

Lemma target_filter_is_filter (h : heap) (o t : oid) :
  shape_ok h → target_filter h o = Some t →
  ∃ to_, h !! t = Some to_ ∧ is_filter (cls to_) = true.
Proof.
  intros Hsh Ht. unfold target_filter in Ht.
  destruct (h !! o) as [x|] eqn:Ho; simpl in Ht; [|discriminate].
  destruct (cls x) as [|d|m] eqn:Hx; try discriminate.
  - injection Ht as <-. exists x. split; [exact Ho|]. rewrite Hx. reflexivity.
  - assert (Hxv : is_variant (cls x) = true) by (rewrite Hx; reflexivity).
    destruct (shape_parent_of_variant h o x Hsh Ho Hxv)
      as (f & fo & i & Hpar & Hf & Hffil & _).
    assert (f = t) as -> by congruence. exists fo. split; assumption.
Qed.

(** C8: a toggle changes at most the [checked], [checkable] and
    [checked_children] attributes of the rows in the subtree of the filter
    it targets: no row is created or lost, every row keeps its class, data,
    parent, position and children, every row outside that subtree is left
    as it was, and so is every other filter with all its variants;
    [accepts_song] leaves the whole heap as it was. *)
Theorem toggle_frame_effect (h : heap) (o : oid) :
  framed (in_subtree h (target_filter h o)) h
         (final_heap (toggle_checked o h)) ∧
  (shape_ok h →
   ∀ g go, h !! g = Some go → is_filter (cls go) = true →
           target_filter h o ≠ Some g →
           final_heap (toggle_checked o h) !! g = Some go ∧
           ∀ c, c ∈ children go →
                final_heap (toggle_checked o h) !! c = h !! c) ∧
  (∀ f song, final_heap (FilterItem_accepts_song f song h) = h) ∧
  (∀ v song, final_heap (VariantItem_accepts_song v song h) = h).
Proof.
  pose proof (toggle_checked_framed o h) as Hfr.
  split; [exact Hfr|]. split.
  2:{ split; intros; [apply FilterItem_accepts_song_heap
                     |apply VariantItem_accepts_song_heap]. }
  intros Hsh g go Hg Hfil Hne.
  destruct Hfr as (_ & _ & Hout).
  assert (Hsub : ∀ c, in_subtree h (target_filter h o) c →
            ∃ t to_, target_filter h o = Some t ∧ h !! t = Some to_ ∧
                     is_filter (cls to_) = true ∧
                     (c = t ∨ c ∈ children to_)).
  { intros c (t & Ht & Hc).
    destruct (target_filter_is_filter h o t Hsh Ht) as (to_ & Hto & Htfil).
    exists t, to_. repeat (split; [assumption|]).
    destruct Hc as [->|(to' & Hto' & Hc)]; [left; reflexivity|right].
    assert (to' = to_) as -> by congruence. exact Hc. }
  split.
  - rewrite Hout; [exact Hg|].
    intros Hin.
    destruct (Hsub g Hin) as (t & to_ & Ht & Hto & Htfil & [->|Hc]).
    + congruence.
    + apply list_elem_of_lookup_1 in Hc as [j Hj].
      destruct (shape_child_of_filter _ _ _ _ _ Hsh Hto Htfil Hj)
        as (co & Hco & _ & _ & Hcvar & _).
      assert (co = go) as -> by congruence.
      destruct (cls go); simpl in *; congruence.
  - intros c Hc. apply Hout.
    apply list_elem_of_lookup_1 in Hc as [j Hj].
    destruct (shape_child_of_filter _ _ _ _ _ Hsh Hg Hfil Hj)
      as (co & Hco & Hcpar & _ & Hcvar & _).
    intros Hin.
    destruct (Hsub c Hin) as (t & to_ & Ht & Hto & Htfil & [->|Hc]).
    + assert (co = to_) as -> by congruence.
      destruct (cls to_); simpl in *; congruence.
    + apply list_elem_of_lookup_1 in Hc as [j' Hj'].
      destruct (shape_children _ Hsh _ _ _ _ Hto Hj') as (co' & Hco' & Hpar' & _).
      assert (co' = co) as -> by congruence.
      apply Hne. congruence.
Qed.

(** C9: on every reachable state the operations return without raising,
    and every subscript they use is in range. *)
Theorem operations_total (root : oid) (h : heap) :
  reachable root h →
  (∀ m song, ∃ b, matches_song m song = Ok b) ∧
  (∀ o, is_Some (h !! o) → ∃ h', toggle_checked o h = Ret () h') ∧
  (∀ f fo song, h !! f = Some fo → is_filter (cls fo) = true →
     ∃ b, FilterItem_accepts_song f song h = Ret b h) ∧
  (∀ f fo, h !! f = Some fo → is_filter (cls fo) = true →
     ∀ i, i ∈ checked_children fo →
          ∃ c, py_getitem (children fo) i = Ok c) ∧
  (∀ v vo, h !! v = Some vo → is_variant (cls vo) = true →
     ∃ f fo h', parent vo = Some f ∧ h !! f = Some fo ∧
                py_getitem (children fo) (row_in_parent vo) = Ok v ∧
                check_child f (row_in_parent vo) h = Ret () h') ∧
  (∀ f fo, h !! f = Some fo → is_filter (cls fo) = true →
     ∃ h', uncheck_children f h = Ret () h').
Proof.
  intros Hr. destruct (reachable_ok root h Hr) as [Hok _].
  split; [exact matches_song_total|].
  split.
  { intros o Ho. destruct (toggle_checked_ok h o Hok Ho) as (h' & Hrun & _).
    exists h'. exact Hrun. }
  split.
  { intros f fo song Hf Hfil.
    destruct (FilterItem_accepts_song_any_set h f fo song (proj1 Hok) Hf Hfil
                (checks_ok_in_bounds h f fo (proj2 Hok) Hf Hfil))
      as (b & Hb & _).
    exists b. exact Hb. }
  split.
  { intros f fo Hf Hfil i Hi. apply py_getitem_in_bounds.
    apply (checks_ok_in_bounds h f fo (proj2 Hok) Hf Hfil i Hi). }
  split.
  { intros v vo Hv Hvar.
    destruct (shape_parent_of_variant h v vo (proj1 Hok) Hv Hvar)
      as (f & fo & i & Hpar & Hf & Hfil & Hrow & Hi & _).
    destruct (check_child_ok h f fo i v Hok Hf Hfil Hi) as (h' & Hrun & _).
    exists f, fo, h'. rewrite Hrow.
    split; [exact Hpar|]. split; [exact Hf|].
    split; [apply py_getitem_nat, Hi|exact Hrun]. }
  intros f fo Hf Hfil.
  destruct (uncheck_children_ok h f fo Hok Hf Hfil) as (h' & Hrun & _).
  exists h'. exact Hrun.
Qed.

End Queries.

(** * The theorems at work on the concrete tree *)

Section Examples.
Import Song Match Tree.

Lemma single_select_invariant_witness :
  reachable 0 example_rated ∧
  (∀ f fo, example_rated !! f = Some fo → is_filter (cls fo) = true →
     size (checked_children fo) ≤ 1 ∧
     (checked fo = true ∧ checkable fo = true ↔ checked_children fo ≠ ∅)) ∧
  (∀ v vo, example_rated !! v = Some vo → is_variant (cls vo) = true →
     ∃ f fo, parent vo = Some f ∧ example_rated !! f = Some fo ∧
             is_filter (cls fo) = true ∧
             (checked vo = true ↔
              row_in_parent vo ∈ checked_children fo)).
Proof.
  assert (Hr : reachable 0 example_rated).
  { unfold example_rated. apply reachable_toggle.
    - apply (reachable_fresh 0 (catalog example_provider)).
      vm_compute. reflexivity.
    - vm_compute. eexists. reflexivity. }
  split; [exact Hr|]. exact (single_select_invariant 0 example_rated Hr).
Defined.

Lemma VariantItem_check_replaces_witness :
  let vo := mkTreeItem (VariantItem (Rating R_3)) (Some 10) 3 [] false true ∅
  in
  ∃ f fo h',
    parent vo = Some f ∧ example_rated !! f = Some fo ∧
    toggle_checked 14 example_rated = Ret () h' ∧
    (∃ fo', h' !! f = Some fo' ∧
            checked_children fo' = {[row_in_parent vo]} ∧
            checked fo' = true ∧ checkable fo' = true) ∧
    (∃ vo', h' !! 14 = Some vo' ∧ checked vo' = true) ∧
    (∀ c, c ∈ children fo → c ≠ 14 →
          ∃ co', h' !! c = Some co' ∧ checked co' = false) ∧
    (∀ w wo, w ∈ children fo → w ≠ 14 → example_rated !! w = Some wo →
       ∃ h'', toggle_checked w h' = Ret () h'' ∧
         (∃ fo'', h'' !! f = Some fo'' ∧
                  checked_children fo'' = {[row_in_parent wo]} ∧
                  checked fo'' = true ∧ checkable fo'' = true) ∧
         (∃ wo'', h'' !! w = Some wo'' ∧ checked wo'' = true) ∧
         (∀ c, c ∈ children fo → c ≠ w →
               ∃ co'', h'' !! c = Some co'' ∧ checked co'' = false)).
Proof.
  intros vo.
  apply (VariantItem_check_replaces 0 example_rated 14 vo).
  - unfold example_rated. apply reachable_toggle.
    + apply (reachable_fresh 0 (catalog example_provider)).
      vm_compute. reflexivity.
    + vm_compute. eexists. reflexivity.
  - vm_compute. reflexivity.
  - reflexivity.
  - reflexivity.
Defined.

Lemma retoggle_clears_witness :
  let fo := mkTreeItem (FilterItem RATING) (Some 0) 5 [11; 12; 13; 14; 15; 16]
              true true {[2%Z]} in
  ∃ h1 h2,
    toggle_checked 14 example_rated = Ret () h1 ∧
    (∃ fo1, h1 !! 10 = Some fo1 ∧ checked_children fo1 = {[Z.of_nat 3]} ∧
            checked fo1 = true ∧ checkable fo1 = true ∧
            children fo1 = children fo) ∧
    (∃ vo1, h1 !! 14 = Some vo1 ∧ checked vo1 = true) ∧
    (∀ c, c ∈ children fo → c ≠ 14 →
          ∃ co1, h1 !! c = Some co1 ∧ checked co1 = false) ∧
    toggle_checked 14 h1 = Ret () h2 ∧
    (∃ fo2, h2 !! 10 = Some fo2 ∧ checked_children fo2 = ∅ ∧
            checked fo2 = false ∧ checkable fo2 = false ∧
            children fo2 = children fo) ∧
    (∀ c, c ∈ children fo → ∃ co2, h2 !! c = Some co2 ∧ checked co2 = false).
Proof.
  intros fo.
  apply (retoggle_clears example_rated 10 fo 3 14
           (mkTreeItem (VariantItem (Rating R_3)) (Some 10) 3 [] false true ∅)).
  - apply (reachable_ok 0). unfold example_rated. apply reachable_toggle.
    + apply (reachable_fresh 0 (catalog example_provider)).
      vm_compute. reflexivity.
    + vm_compute. eexists. reflexivity.
  - vm_compute. reflexivity.
  - reflexivity.
  - reflexivity.
  - vm_compute. reflexivity.
  - reflexivity.
Defined.

Lemma FilterItem_toggle_checked_spec_witness :
  let fo := mkTreeItem (FilterItem RATING) (Some 0) 5 [11; 12; 13; 14; 15; 16]
              true true {[2%Z]} in
  (checked_children fo ≠ ∅ →
   ∃ h', toggle_checked 10 example_rated = Ret () h' ∧
     (∃ v vo, v ∈ children fo ∧ example_rated !! v = Some vo ∧
              checked vo = true ∧
              checked_children fo = {[row_in_parent vo]} ∧
              toggle_checked v example_rated = Ret () h') ∧
     (∃ fo', h' !! 10 = Some fo' ∧ checked_children fo' = ∅ ∧
             checked fo' = false ∧ checkable fo' = false) ∧
     (∀ c, c ∈ children fo →
           ∃ co', h' !! c = Some co' ∧ checked co' = false)) ∧
  (checked_children fo = ∅ →
   toggle_checked 10 example_rated = Ret () example_rated).
Proof.
  intros fo.
  apply (FilterItem_toggle_checked_spec 0 example_rated 10 fo).
  - unfold example_rated. apply reachable_toggle.
    + apply (reachable_fresh 0 (catalog example_provider)).
      vm_compute. reflexivity.
    + vm_compute. eexists. reflexivity.
  - vm_compute. reflexivity.
  - reflexivity.
Defined.

Lemma FilterItem_accepts_song_spec_witness :
  let visit := λ s : gset Z, reverse (elements s) in
  let h := Checkable.example_multi in
  (∀ f fo song, h !! f = Some fo → is_filter (cls fo) = true →
     (∀ i, i ∈ checked_children fo →
           (0 ≤ i < Z.of_nat (length (children fo)))%Z) →
     ∃ b, FilterItem_accepts_song_by visit f song h = Ret b h ∧
          (b = true ↔
           checked_children fo = ∅ ∨
           ∃ i v vo m, i ∈ checked_children fo ∧
                       py_getitem (children fo) i = Ok v ∧
                       h !! v = Some vo ∧ cls vo = VariantItem m ∧
                       matches_song m song = Ok true)) ∧
  (∀ root ro, h !! root = Some ro → cls ro = RootItem →
     (∀ f fo, h !! f = Some fo → is_filter (cls fo) = true →
              checked_children fo = ∅) →
     ∀ song,
       (∀ f fo, h !! f = Some fo → is_filter (cls fo) = true →
                FilterItem_accepts_song_by visit f song h = Ret true h) ∧
       accepts root song h = Ret true h) ∧
  (∀ root, reachable root h →
     ∀ f fo, h !! f = Some fo → is_filter (cls fo) = true →
       ∀ i, i ∈ checked_children fo →
            (0 ≤ i < Z.of_nat (length (children fo)))%Z).
Proof.
  intros visit h.
  apply (FilterItem_accepts_song_spec visit h).
  - intros s. apply reverse_Permutation.
  - apply (shape_ok_framed (λ _, True) example_fresh).
    + unfold h, Checkable.example_multi.
      apply framed_update; [reflexivity|exact I].
    + apply (reachable_ok 0).
      apply (reachable_fresh 0 (catalog example_provider)).
      vm_compute. reflexivity.
Defined.

Lemma toggle_frame_effect_witness :
  framed (in_subtree example_fresh (target_filter example_fresh 13))
         example_fresh example_rated ∧
  (shape_ok example_fresh →
   ∀ g go, example_fresh !! g = Some go → is_filter (cls go) = true →
           target_filter example_fresh 13 ≠ Some g →
           example_rated !! g = Some go ∧
           ∀ c, c ∈ children go → example_rated !! c = example_fresh !! c) ∧
  (∀ f song,
     final_heap (FilterItem_accepts_song f song example_fresh)
       = example_fresh) ∧
  (∀ v song,
     final_heap (VariantItem_accepts_song v song example_fresh)
       = example_fresh).
Proof. exact (toggle_frame_effect example_fresh 13). Defined.

Lemma operations_total_witness :
  (∀ m song, ∃ b, matches_song m song = Ok b) ∧
  (∀ o, is_Some (example_rated !! o) →
        ∃ h', toggle_checked o example_rated = Ret () h') ∧
  (∀ f fo song, example_rated !! f = Some fo → is_filter (cls fo) = true →
     ∃ b, FilterItem_accepts_song f song example_rated
            = Ret b example_rated) ∧
  (∀ f fo, example_rated !! f = Some fo → is_filter (cls fo) = true →
     ∀ i, i ∈ checked_children fo →
          ∃ c, py_getitem (children fo) i = Ok c) ∧
  (∀ v vo, example_rated !! v = Some vo → is_variant (cls vo) = true →
     ∃ f fo h', parent vo = Some f ∧ example_rated !! f = Some fo ∧
                py_getitem (children fo) (row_in_parent vo) = Ok v ∧
                check_child f (row_in_parent vo) example_rated = Ret () h') ∧
  (∀ f fo, example_rated !! f = Some fo → is_filter (cls fo) = true →
     ∃ h', uncheck_children f example_rated = Ret () h').
Proof.
  apply (operations_total 0 example_rated).
  unfold example_rated. apply reachable_toggle.
  - apply (reachable_fresh 0 (catalog example_provider)).
    vm_compute. reflexivity.
  - vm_compute. eexists. reflexivity.
Defined.

(** The scenario of the spec: on the tree with the two star rating
    ticked, the rating filter accepts a song rated 2 and rejects a song
    rated 5; on the fresh tree it accepts both. *)
Example rating_scenario :
  FilterItem_accepts_song 10 (song_with 2 50) example_rated
    = Ret true example_rated ∧
  FilterItem_accepts_song 10 (song_with 5 50) example_rated
    = Ret false example_rated ∧
  accepts 0 (song_with 2 50) example_rated = Ret true example_rated ∧
  accepts 0 (song_with 5 50) example_rated = Ret false example_rated ∧
  accepts 0 (song_with 5 50) example_fresh = Ret true example_fresh.
Proof. repeat split; vm_compute; reflexivity. Qed.

(** Ticking the [None] rating hides every song, also the unrated ones. *)
Example rating_none_scenario :
  ∃ h, toggle_checked 11 example_fresh = Ret () h ∧
       accepts 0 (song_with 0 1) h = Ret false h.
Proof. eexists. split; vm_compute; reflexivity. Qed.

(** Subscripting outside the tuple raises, and leaves the flags of the
    filter set. *)
Example check_child_out_of_range :
  ∃ h, check_child 10 6 example_fresh = Raise IndexError h ∧
       (checked <$> h !! 10) = Some true.
Proof. eexists. split; vm_compute; reflexivity. Qed.

End Examples.

(** * Further properties of the predicates and their labels *)

Section PredicateFacts.
Import Song Match Tree Labels.

Lemma ViewsVariant_match_iff (v : ViewsVariant) (song : SongData) :
  ViewsVariant_matches_song v song = Ok true ↔
  ((ViewsVariant_value v).1 ≤ views (data song))%Z ∧
  ((ViewsVariant_value v).2 = None ∨
   ∃ u, (ViewsVariant_value v).2 = Some u ∧ (views (data song) < u)%Z).
Proof.
  unfold ViewsVariant_matches_song.
  destruct (ViewsVariant_value v) as [lo hi].
  destruct (views_in_bucket_spec lo hi song) as [b [-> Hb]].
  rewrite <- Hb. split; congruence.
Qed.

Lemma RatingVariant_match_iff (r : RatingVariant) (song : SongData) :
  RatingVariant_matches_song r song = Ok true ↔
  RatingVariant_value r = Some (rating (data song)).
Proof.
  unfold RatingVariant_matches_song. rewrite <- py_eq_int_true.
  split; congruence.
Qed.

(** X1: every song is matched by exactly one golden notes variant. *)
Theorem GoldenNotesVariant_exactly_one (song : SongData) :
  ∃ g, GoldenNotesVariant_matches_song g song = Ok true ∧
       ∀ g', GoldenNotesVariant_matches_song g' song = Ok true → g' = g.
Proof.
  unfold GoldenNotesVariant_matches_song.
  destruct (golden_notes (data song)); [exists YES|exists NO];
    (split; [reflexivity|]); intros [|]; simpl; congruence.
Qed.

(** X2: a song is matched by at most one rating variant, and by one
    exactly when its rating lies between 1 and 5; a song rated 0 or
    rated above 5 is matched by none of the six variants. *)
Theorem RatingVariant_coverage (song : SongData) :
  (∀ r r', RatingVariant_matches_song r song = Ok true →
           RatingVariant_matches_song r' song = Ok true → r = r') ∧
  ((∃ r, RatingVariant_matches_song r song = Ok true) ↔
   (1 ≤ rating (data song) ≤ 5)%Z).
Proof.
  split.
  - intros r r' Hr Hr'.
    apply RatingVariant_match_iff in Hr. apply RatingVariant_match_iff in Hr'.
    destruct r, r'; simpl in *; congruence.
  - split.
    + intros [r Hr]. apply RatingVariant_match_iff in Hr.
      destruct r; simpl in Hr; [discriminate|..];
        injection Hr as <-; lia.
    + intros Hk.
      assert (Hcases : (rating (data song) = 1 ∨ rating (data song) = 2 ∨
                        rating (data song) = 3 ∨ rating (data song) = 4 ∨
                        rating (data song) = 5)%Z) by lia.
      destruct Hcases as [H|[H|[H|[H|H]]]];
        [exists R_1|exists R_2|exists R_3|exists R_4|exists R_5];
        apply RatingVariant_match_iff; rewrite H; reflexivity.
Qed.

Lemma RatingVariant_coverage_witness :
  (∀ r r', RatingVariant_matches_song r (song_with 0 1) = Ok true →
           RatingVariant_matches_song r' (song_with 0 1) = Ok true → r = r') ∧
  ((∃ r, RatingVariant_matches_song r (song_with 0 1) = Ok true) ↔
   (1 ≤ rating (data (song_with 0 1)) ≤ 5)%Z).
Proof. exact (RatingVariant_coverage (song_with 0 1)). Defined.

(** X3: a song is matched by at most one views variant, and by one
    exactly when its number of views is not negative. *)
Theorem ViewsVariant_coverage (song : SongData) :
  (∀ v v', ViewsVariant_matches_song v song = Ok true →
           ViewsVariant_matches_song v' song = Ok true → v = v') ∧
  ((∃ v, ViewsVariant_matches_song v song = Ok true) ↔
   (0 ≤ views (data song))%Z).
Proof.
  split.
  - intros v v' Hv Hv'.
    apply ViewsVariant_match_iff in Hv. apply ViewsVariant_match_iff in Hv'.
    destruct v, v'; simpl in Hv, Hv';
      destruct Hv as [Hlo [Hn|[u [Hu Hlt]]]];
      destruct Hv' as [Hlo' [Hn'|[u' [Hu' Hlt']]]];
      first [reflexivity | discriminate | (simplify_eq; lia)].
  - split.
    + intros [v Hv]. apply ViewsVariant_match_iff in Hv.
      destruct Hv as [Hlo _]. destruct v; simpl in Hlo; lia.
    + intros Hv.
      assert (Hb : ∀ lo hi, (lo ≤ views (data song) < hi)%Z →
                ∀ v, ViewsVariant_value v = (lo, Some hi) →
                     ViewsVariant_matches_song v song = Ok true).
      { intros lo hi Hr v Hval. apply ViewsVariant_match_iff. rewrite Hval.
        simpl. split; [lia|]. right. exists hi. split; [reflexivity|lia]. }
      destruct (Z_lt_le_dec (views (data song)) 100);
        [exists V_0; apply (Hb 0 100)%Z; [lia|reflexivity]|].
      destruct (Z_lt_le_dec (views (data song)) 200);
        [exists V_100; apply (Hb 100 200)%Z; [lia|reflexivity]|].
      destruct (Z_lt_le_dec (views (data song)) 300);
        [exists V_200; apply (Hb 200 300)%Z; [lia|reflexivity]|].
      destruct (Z_lt_le_dec (views (data song)) 400);
        [exists V_300; apply (Hb 300 400)%Z; [lia|reflexivity]|].
      destruct (Z_lt_le_dec (views (data song)) 500);
        [exists V_400; apply (Hb 400 500)%Z; [lia|reflexivity]|].
      exists V_500. apply ViewsVariant_match_iff. simpl.
      split; [lia|left; reflexivity].
Qed.

(** X4: two static variants of one filter never match the same song:
    the rows below a filter with static variants exclude each other. *)
Theorem static_variants_exclusive (f : Filter) (m m' : SongMatch)
    (song : SongData) :
  m ∈ static_variants f → m' ∈ static_variants f →
  matches_song m song = Ok true → matches_song m' song = Ok true →
  m = m'.
Proof.
  intros Hm Hm' Hs Hs'.
  destruct f; unfold static_variants in Hm, Hm'.
  1-4: apply elem_of_nil in Hm; destruct Hm.
  - apply list_elem_of_fmap in Hm as (g & -> & _).
    apply list_elem_of_fmap in Hm' as (g' & -> & _). simpl in Hs, Hs'.
    unfold GoldenNotesVariant_matches_song in Hs, Hs'.
    destruct g, g', (golden_notes (data song)); simpl in *; congruence.
  - apply list_elem_of_fmap in Hm as (r & -> & _).
    apply list_elem_of_fmap in Hm' as (r' & -> & _). simpl in Hs, Hs'.
    apply RatingVariant_match_iff in Hs. apply RatingVariant_match_iff in Hs'.
    destruct r, r'; simpl in *; congruence.
  - apply list_elem_of_fmap in Hm as (v & -> & _).
    apply list_elem_of_fmap in Hm' as (v' & -> & _). simpl in Hs, Hs'.
    apply ViewsVariant_match_iff in Hs. apply ViewsVariant_match_iff in Hs'.
    destruct v, v'; simpl in Hs, Hs';
      destruct Hs as [Hlo [Hn|[u [Hu Hlt]]]];
      destruct Hs' as [Hlo' [Hn'|[u' [Hu' Hlt']]]];
      first [reflexivity | discriminate | (simplify_eq; lia)].
Qed.

Lemma static_variants_exclusive_witness :
  Views V_100 = Views V_100.
Proof.
  apply (static_variants_exclusive VIEWS (Views V_100) (Views V_100)
           (song_with 3 150)).
  - vm_compute. apply list_elem_of_In. simpl. tauto.
  - vm_compute. apply list_elem_of_In. simpl. tauto.
  - reflexivity.
  - reflexivity.
Defined.

(** X5: the label of a views variant shows the bounds of what it
    matches, both inclusive: a bucket [(lo, hi)] is labelled with [lo] and
    [hi - 1] and matches the songs with [lo <= views <= hi - 1]; the
    unbounded bucket is labelled with [lo] and a plus sign and matches the
    songs with [lo <= views]. *)
Theorem ViewsVariant_label_bounds (v : ViewsVariant) (song : SongData) :
  (∃ lo : Z,
     ViewsVariant_str v = pretty lo +:+ "+" ∧
     (ViewsVariant_matches_song v song = Ok true ↔
      (lo ≤ views (data song))%Z)) ∨
  (∃ lo last : Z,
     ViewsVariant_str v = pretty lo +:+ " to " +:+ pretty last ∧
     (ViewsVariant_matches_song v song = Ok true ↔
      (lo ≤ views (data song) ≤ last)%Z)).
Proof.
  unfold ViewsVariant_str, views_label.
  pose proof (ViewsVariant_match_iff v song) as Hm.
  destruct (ViewsVariant_value v) as [lo [hi|]]; simpl in *.
  - right. exists lo, (hi - 1)%Z. split; [reflexivity|]. rewrite Hm. split.
    + intros [Hlo [Hn|[u [Hu Hlt]]]]; [discriminate|].
      injection Hu as <-. lia.
    + intros [Hlo Hhi]. split; [exact Hlo|]. right. exists hi.
      split; [reflexivity|lia].
  - left. exists lo. split; [reflexivity|]. rewrite Hm. split.
    + intros [Hlo _]. exact Hlo.
    + intros Hlo. split; [exact Hlo|]. left. reflexivity.
Qed.

(** X6: the label of a rating variant never fails to print; it is the
    word None for the variant that matches nothing, and otherwise as many
    stars as the rating the variant matches. *)
Theorem RatingVariant_label_stars (r : RatingVariant) :
  (r = R_NONE ∧ RatingVariant_str r = Ok "None"%string ∧
   ∀ song, RatingVariant_matches_song r song = Ok false) ∨
  (∃ k : Z, (1 ≤ k ≤ 5)%Z ∧
     RatingVariant_str r = Ok (py_str_mul k star) ∧
     ∀ song, RatingVariant_matches_song r song = Ok true ↔
             rating (data song) = k).
Proof.
  destruct r; [left; repeat split|right..].
  1: exists 1%Z. 2: exists 2%Z. 3: exists 3%Z. 4: exists 4%Z. 5: exists 5%Z.
  all: split; [lia|]; split; [reflexivity|]; intros song;
    rewrite RatingVariant_match_iff; simpl; split; congruence.
Qed.

(** X7: within each enum the labels tell the members apart. *)
Theorem labels_injective :
  (∀ f f', Filter_str f = Filter_str f' → f = f') ∧
  (∀ r r', RatingVariant_str r = RatingVariant_str r' → r = r') ∧
  (∀ g g', GoldenNotesVariant_str g = GoldenNotesVariant_str g' → g = g') ∧
  (∀ v v', ViewsVariant_str v = ViewsVariant_str v' → v = v').
Proof.
  repeat split.
  - intros f f'. destruct f, f'; vm_compute; congruence.
  - intros r r'. destruct r, r'; vm_compute; congruence.
  - intros g g'. destruct g, g'; vm_compute; congruence.
  - intros v v'. destruct v, v'; vm_compute; congruence.
Qed.

End PredicateFacts.

(** * Songs read from the result list *)

Section ScraperFacts.
Import Song Match Scraper.

Lemma prefix_length (p s : string) :
  String.prefix p s = true → String.length p ≤ String.length s.
Proof.
  revert p. induction s as [|c s IH]; intros [|d p]; simpl; try lia.
  destruct (Ascii.ascii_dec d c); [|discriminate].
  intros Hp. apply IH in Hp. lia.
Qed.

(** Occurrences do not overlap: they take up disjoint parts of what is
    left of the string. *)
Lemma count_scan_bound (sub s : string) (skip : nat) :
  (0 ≤ count_scan sub s skip)%Z ∧
  (Z.of_nat (String.length sub) * count_scan sub s skip
   ≤ Z.of_nat (String.length s - skip))%Z.
Proof.
  revert skip. induction s as [|c s IH]; intros skip;
    cbn [count_scan String.length].
  - lia.
  - destruct skip as [|k].
    + destruct (String.prefix sub (String c s)) eqn:Hp.
      * apply prefix_length in Hp. simpl in Hp.
        destruct (IH (String.length sub - 1)) as [H0 Hb]. split; [lia|].
        rewrite Z.mul_add_distr_l, Z.mul_1_r.
        set (P := (Z.of_nat (String.length sub) * _)%Z) in *. lia.
      * destruct (IH 0) as [H0 Hb]. split; [lia|].
        rewrite Nat.sub_0_r in Hb. lia.
    + destruct (IH k) as [H0 Hb]. split; [lia|]. simpl. lia.
Qed.

Lemma prefix_app (p s : string) :
  String.prefix p s = true → ∃ rest, s = p +:+ rest.
Proof.
  revert p. induction s as [|c s IH]; intros [|d p]; simpl.
  - intros _. exists EmptyString. reflexivity.
  - discriminate.
  - intros _. exists (String c s). reflexivity.
  - destruct (Ascii.ascii_dec d c) as [->|]; [|discriminate].
    intros Hp. destruct (IH p Hp) as [rest ->]. exists rest. reflexivity.
Qed.

Lemma code_points_app (a b : string) :
  code_points (a +:+ b) = code_points a + code_points b.
Proof.
  induction a as [|c a IH]; [reflexivity|].
  change (String c a +:+ b) with (String c (a +:+ b)).
  cbn [code_points]. rewrite IH. lia.
Qed.

(** Each occurrence of a pattern made of whole one-byte characters takes
    up as many characters of what is left of the text as the pattern is
    long. *)
Lemma count_scan_code_points (sub s : string) (skip : nat) :
  code_points sub = String.length sub →
  ∀ pre rest, s = pre +:+ rest → String.length pre = skip →
    (Z.of_nat (String.length sub) * count_scan sub s skip
     ≤ Z.of_nat (code_points rest))%Z.
Proof.
  intros Hsub. revert skip.
  induction s as [|c s IH]; intros skip pre rest Hs Hlen;
    cbn [count_scan].
  - lia.
  - destruct skip as [|k].
    + destruct pre as [|c' pre']; [|discriminate].
      assert (rest = String c s) as -> by (symmetry; exact Hs).
      destruct (String.prefix sub (String c s)) eqn:Hp.
      * destruct (prefix_app _ _ Hp) as [r Hr].
        destruct sub as [|d sub'].
        { simpl. lia. }
        change (String c s = String d (sub' +:+ r)) in Hr.
        injection Hr as <- ->.
        pose proof (IH (String.length sub') sub' r eq_refl eq_refl) as Hb.
        replace (String.length (String c sub') - 1)
          with (String.length sub') by (simpl; lia).
        change (String c (sub' +:+ r)) with (String c sub' +:+ r).
        rewrite code_points_app, Hsub.
        rewrite Z.mul_add_distr_l, Z.mul_1_r.
        set (P := (Z.of_nat (String.length (String c sub')) * _)%Z) in *.
        lia.
      * pose proof (IH 0 EmptyString s eq_refl eq_refl) as Hb.
        simpl code_points. lia.
    + destruct pre as [|c' pre']; [discriminate|].
      change (String c s = String c' (pre' +:+ rest)) in Hs.
      simpl in Hlen. injection Hs as <- ->. injection Hlen as Hlen.
      apply (IH k pre' rest eq_refl Hlen).
Qed.

(** X8: what [from_html] returns when it returns: the identifier and the
    number of views as parsed, the four texts as given, the golden notes
    flag set exactly for the text Yes, and as rating the count of star
    images, which is not negative and at most an eighth of the number of
    characters of the cell. *)
Theorem from_html_fields (SongId_parse py_int : string → result Z)
    (song_id artist_ title_ language_ edition_ golden rating_ views_ : string)
    (song : UsdbSong) :
  from_html SongId_parse py_int song_id artist_ title_ language_ edition_
            golden rating_ views_ = Ok song →
  SongId_parse song_id = Ok (Song.song_id song) ∧
  py_int views_ = Ok (views song) ∧
  artist song = artist_ ∧ title song = title_ ∧
  language song = language_ ∧ edition song = edition_ ∧
  (golden_notes song = true ↔ golden = "Yes"%string) ∧
  rating song = str_count rating_ "star.png" ∧
  (0 ≤ rating song)%Z ∧
  (8 * rating song ≤ Z.of_nat (code_points rating_))%Z.
Proof.
  unfold from_html.
  destruct (SongId_parse song_id) as [id|e]; [|discriminate].
  destruct (py_int views_) as [n|e]; [|discriminate].
  intros [= <-]. simpl.
  repeat (split; [reflexivity|]).
  split; [apply String.eqb_eq|]. split; [reflexivity|].
  unfold str_count. simpl bool_decide. cbv iota.
  destruct (count_scan_bound "star.png" rating_ 0) as [H0 _].
  split; [exact H0|].
  apply (count_scan_code_points "star.png" rating_ 0 eq_refl
           EmptyString rating_ eq_refl eq_refl).
Qed.

Lemma from_html_fields_witness :
  ∃ song,
    from_html (λ _, Ok 123%Z) (λ _, Ok 27%Z) "123" "Foo" "Bar" "Esperanto" ""
              "Yes" "★★★★★★★★<img src=star.png>" "27" = Ok song ∧
    golden_notes song = true ∧ rating song = 1%Z ∧
    (8 * rating song
     ≤ Z.of_nat (code_points "★★★★★★★★<img src=star.png>"))%Z.
Proof.
  eexists. split; [reflexivity|].
  destruct (from_html_fields (λ _, Ok 123%Z) (λ _, Ok 27%Z) "123" "Foo" "Bar"
              "Esperanto" "" "Yes" "★★★★★★★★<img src=star.png>"
              "27" _ eq_refl)
    as (_ & _ & _ & _ & _ & _ & Hg & Hr & _ & Hb).
  split; [apply Hg; reflexivity|]. split; [rewrite Hr; reflexivity|exact Hb].
Defined.

(** X9: [from_html] raises exactly when one of the two parsers raises,
    and an error of [SongId.parse] takes precedence over one of [int]. *)
Theorem from_html_errors (SongId_parse py_int : string → result Z)
    (song_id artist_ title_ language_ edition_ golden rating_ views_ : string)
    (e : exn) :
  from_html SongId_parse py_int song_id artist_ title_ language_ edition_
            golden rating_ views_ = Err e ↔
  SongId_parse song_id = Err e ∨
  ((∃ id, SongId_parse song_id = Ok id) ∧ py_int views_ = Err e).
Proof.
  unfold from_html.
  destruct (SongId_parse song_id) as [id|e1].
  - destruct (py_int views_) as [n|e2].
    + split; [discriminate|]. intros [H|[_ H]]; discriminate.
    + split.
      * intros [= ->]. right. split; [exists id|]; reflexivity.
      * intros [H|[_ H]]; [discriminate|]. congruence.
  - split.
    + intros [= ->]. left. reflexivity.
    + intros [H|[[id H] _]]; [congruence|discriminate].
Qed.

(** X10: the rating filter on a song read by [from_html]: a rating
    variant matches it exactly when its value is the number of star
    images in the rating cell, so a song shown without any star is
    matched by none of the rating variants. *)
Theorem from_html_rating_filter (SongId_parse py_int : string → result Z)
    (song_id artist_ title_ language_ edition_ golden rating_ views_ : string)
    (song : UsdbSong) :
  from_html SongId_parse py_int song_id artist_ title_ language_ edition_
            golden rating_ views_ = Ok song →
  (∀ r, RatingVariant_matches_song r (mkSongData song) = Ok true ↔
        RatingVariant_value r = Some (str_count rating_ "star.png")) ∧
  (str_count rating_ "star.png" = 0%Z →
   ∀ r, RatingVariant_matches_song r (mkSongData song) = Ok false).
Proof.
  intros Hsong.
  assert (Hr : rating song = str_count rating_ "star.png").
  { unfold from_html in Hsong.
    destruct (SongId_parse song_id); [|discriminate].
    destruct (py_int views_); [|discriminate].
    injection Hsong as <-. reflexivity. }
  split.
  - intros r. rewrite RatingVariant_match_iff. simpl. rewrite Hr. reflexivity.
  - intros H0 r. unfold RatingVariant_matches_song. simpl.
    rewrite Hr, H0. destruct r; reflexivity.
Qed.

Lemma from_html_rating_filter_witness :
  ∃ song,
    from_html (λ _, Ok 123%Z) (λ _, Ok 0%Z) "123" "Foo" "Bar" "Esperanto" ""
              "No" "" "0" = Ok song ∧
    ∀ r, RatingVariant_matches_song r (mkSongData song) = Ok false.
Proof.
  eexists. split; [reflexivity|].
  apply (from_html_rating_filter (λ _, Ok 123%Z) (λ _, Ok 0%Z) "123" "Foo"
           "Bar" "Esperanto" "" "No" "" "0" _ eq_refl).
  reflexivity.
Defined.

End ScraperFacts.

(** * Edge cases of the tree operations *)

Section EdgeFacts.
Import Song Match Tree Checkable.

Lemma framed_mono (S S' : oid → Prop) (h h' : heap) :
  (∀ o, S o → S' o) → framed S h h' → framed S' h h'.
Proof.
  intros HS (Hl & Hs & Ho). repeat split; try assumption.
  intros o Hno. apply Ho. intros HSo. apply Hno, HS, HSo.
Qed.

Lemma py_getitem_out_of_range {A} (l : list A) (i : Z) :
  (i < - Z.of_nat (length l) ∨ Z.of_nat (length l) ≤ i)%Z →
  py_getitem l i = Err IndexError.
Proof.
  intros Hi. unfold py_getitem.
  destruct (Z.ltb_spec i 0) as [Hneg|Hpos].
  - destruct (Z.leb_spec 0 (Z.of_nat (length l) + i)) as [H0|H0];
      [lia|reflexivity].
  - destruct (Z.leb_spec 0 i) as [_|H0]; [|lia].
    destruct (Z.ltb_spec i (Z.of_nat (length l))) as [Hlt|_];
      [lia|reflexivity].
Qed.

Lemma py_getitem_negative {A} (l : list A) (j : nat) (a : A) :
  l !! j = Some a →
  py_getitem l (Z.of_nat j - Z.of_nat (length l)) = Ok a.
Proof.
  intros Hl. pose proof (lookup_lt_Some _ _ _ Hl) as Hlt.
  unfold py_getitem.
  destruct (Z.ltb_spec (Z.of_nat j - Z.of_nat (length l)) 0) as [_|H0];
    [|lia].
  replace (Z.of_nat (length l) + (Z.of_nat j - Z.of_nat (length l)))%Z
    with (Z.of_nat j) by lia.
  destruct (Z.leb_spec 0 (Z.of_nat j)) as [_|H0]; [|lia].
  destruct (Z.ltb_spec (Z.of_nat j) (Z.of_nat (length l))) as [_|H0]; [|lia].
  simpl. rewrite Nat2Z.id, Hl. reflexivity.
Qed.

(** [check_child] up to its subscript: the filter is already marked with
    the index when the tuple is read. *)
Lemma check_child_run (h : heap) (f : oid) (fo : TreeItem) (child : Z) :
  shape_ok h → h !! f = Some fo → is_filter (cls fo) = true →
  ∃ h4,
    h4 !! f = Some (mkTreeItem (cls fo) (parent fo) (row_in_parent fo)
                      (children fo) true true {[child]}) ∧
    (∀ o, o ≠ f →
       h4 !! o =
       (if bool_decide (o ∈ children fo) then with_checked false else id)
         <$> h !! o) ∧
    check_child f child h =
    match py_getitem (children fo) child with
    | Ok c => update c (with_checked true) h4
    | Err e => Raise e h4
    end.
Proof.
  intros Hsh Hf Hfil. unfold check_child.
  destruct (uncheck_children_spec h f fo Hsh Hf Hfil) as (h1 & Hrun & Hf1 & Hlk).
  rewrite (bind_Ret _ _ _ _ _ Hrun).
  rewrite (bind_Ret _ _ _ _ _ (update_Some _ _ _ _ Hf1)).
  match goal with |- context [alter ?g f h1] => set (h2 := alter g f h1) end.
  assert (Hf2 : h2 !! f = Some (mkTreeItem (cls fo) (parent fo)
            (row_in_parent fo) (children fo) false false {[child]})).
  { unfold h2. rewrite list_lookup_alter_eq, Hf1. simpl.
    unfold with_checked_children; simpl. f_equal. f_equal.
    apply union_empty_r_L. }
  rewrite (bind_Ret _ _ _ _ _ (update_Some _ _ _ _ Hf2)).
  set (h3 := alter (with_checkable true) f h2).
  assert (Hf3 : h3 !! f = Some (mkTreeItem (cls fo) (parent fo)
            (row_in_parent fo) (children fo) false true {[child]})).
  { unfold h3. rewrite list_lookup_alter_eq, Hf2. reflexivity. }
  rewrite (bind_Ret _ _ _ _ _ (update_Some _ _ _ _ Hf3)).
  set (h4 := alter (with_checked true) f h3).
  assert (Hf4 : h4 !! f = Some (mkTreeItem (cls fo) (parent fo)
            (row_in_parent fo) (children fo) true true {[child]})).
  { unfold h4. rewrite list_lookup_alter_eq, Hf3. reflexivity. }
  exists h4. split; [exact Hf4|]. split.
  - intros o Ho. unfold h4, h3, h2.
    rewrite !list_lookup_alter_ne by congruence. apply Hlk, Ho.
  - rewrite (bind_Ret _ _ _ _ _ (load_Some _ _ _ Hf4)). simpl children.
    rewrite bind_eq.
    destruct (py_getitem (children fo) child); reflexivity.
Qed.

Lemma accepts_song_raises (h : heap) (f : oid) (fo : TreeItem)
    (song : SongData) :
  h !! f = Some fo → is_filter (cls fo) = true →
  checked_children fo ≠ ∅ →
  (∀ i, i ∈ checked_children fo →
     (i < - Z.of_nat (length (children fo)) ∨
      Z.of_nat (length (children fo)) ≤ i)%Z) →
  FilterItem_accepts_song f song h = Raise IndexError h.
Proof.
  intros Hf Hfil Hne Hout.
  unfold FilterItem_accepts_song, FilterItem_accepts_song_by.
  rewrite (bind_Ret _ _ _ _ _ (as_filter_Some _ _ _ Hf Hfil)).
  rewrite bool_decide_eq_false_2 by exact Hne.
  destruct (elements (checked_children fo)) as [|i l] eqn:He.
  - apply elements_empty_inv in He. apply leibniz_equiv in He. contradiction.
  - assert (Hi : i ∈ checked_children fo).
    { apply elem_of_elements. rewrite He. left. }
    cbn [any_of]. rewrite bind_eq.
    rewrite (bind_Ret _ _ _ _ _ (load_Some _ _ _ Hf)).
    rewrite (py_getitem_out_of_range _ _ (Hout i Hi)). reflexivity.
Qed.

(** X11: [accepts_song] raises [IndexError], and leaves the heap as it
    was, on a filter whose set of checked indices is not empty and holds
    only indices outside its tuple of children. *)
Theorem FilterItem_accepts_song_out_of_range (h : heap) (f : oid)
    (fo : TreeItem) (song : SongData) :
  h !! f = Some fo → is_filter (cls fo) = true →
  checked_children fo ≠ ∅ →
  (∀ i, i ∈ checked_children fo →
     (i < - Z.of_nat (length (children fo)) ∨
      Z.of_nat (length (children fo)) ≤ i)%Z) →
  FilterItem_accepts_song f song h = Raise IndexError h.
Proof. apply accepts_song_raises. Qed.

Lemma FilterItem_accepts_song_out_of_range_witness :
  FilterItem_accepts_song 10 (song_with 3 50) example_broken
    = Raise IndexError example_broken.
Proof.
  apply (FilterItem_accepts_song_out_of_range example_broken 10
           (mkTreeItem (FilterItem RATING) (Some 0) 5 [11; 12; 13; 14; 15; 16]
              true true {[6%Z]})).
  - vm_compute. reflexivity.
  - reflexivity.
  - simpl. intros He.
    assert (Hin : 6%Z ∈ (∅ : gset Z)) by (rewrite <- He; apply elem_of_singleton; reflexivity).
    apply not_elem_of_empty in Hin. exact Hin.
  - simpl. intros i Hi. apply elem_of_singleton in Hi. subst i. lia.
Defined.

(** X12: [check_child] with an index outside the tuple of children
    raises [IndexError] only after it has unchecked every child and marked
    the filter as constrained on that index.  In the state it leaves,
    [accepts_song] on the filter raises [IndexError] for every song;
    toggling the filter clears the mark again. *)
Theorem check_child_out_of_range_effect (root : oid) (h : heap) (f : oid)
    (fo : TreeItem) (i : Z) :
  reachable root h → h !! f = Some fo → is_filter (cls fo) = true →
  (i < - Z.of_nat (length (children fo)) ∨
   Z.of_nat (length (children fo)) ≤ i)%Z →
  ∃ h',
    check_child f i h = Raise IndexError h' ∧
    h' !! f = Some (mkTreeItem (cls fo) (parent fo) (row_in_parent fo)
                      (children fo) true true {[i]}) ∧
    (∀ c, c ∈ children fo →
          ∃ co', h' !! c = Some co' ∧ checked co' = false) ∧
    (∀ song, FilterItem_accepts_song f song h' = Raise IndexError h') ∧
    (∃ h'', toggle_checked f h' = Ret () h'' ∧
            h'' !! f = Some (mkTreeItem (cls fo) (parent fo)
                               (row_in_parent fo) (children fo)
                               false false ∅)).
Proof.
  intros Hr Hf Hfil Hi.
  destruct (reachable_ok root h Hr) as [[Hsh Hck] _].
  destruct (check_child_run h f fo i Hsh Hf Hfil) as (h' & Hf' & Hlk & Hrun).
  rewrite (py_getitem_out_of_range _ _ Hi) in Hrun.
  exists h'. split; [exact Hrun|]. split; [exact Hf'|]. split; [|split].
  - intros c Hc. pose proof Hc as Hin.
    apply list_elem_of_lookup_1 in Hc as [j Hj].
    destruct (shape_child_of_filter _ _ _ _ _ Hsh Hf Hfil Hj)
      as (co & Hco & _ & _ & _ & Hcf).
    exists (with_checked false co). split; [|reflexivity].
    rewrite Hlk, Hco by exact Hcf. simpl.
    rewrite bool_decide_eq_true_2 by exact Hin. reflexivity.
  - intros song. apply (accepts_song_raises h' f _ song Hf' Hfil).
    + simpl. intros He.
      assert (Hin : i ∈ (∅ : gset Z))
        by (rewrite <- He; apply elem_of_singleton; reflexivity).
      apply not_elem_of_empty in Hin. exact Hin.
    + simpl. intros i' Hi'. apply elem_of_singleton in Hi'. subst i'.
      exact Hi.
  - assert (Hsh' : shape_ok h').
    { pose proof (check_child_framed f i h) as Hfr. rewrite Hrun in Hfr.
      eapply shape_ok_framed; eassumption. }
    rewrite (FilterItem_toggle_checked_eq h' f _ Hf' Hfil). simpl.
    destruct (uncheck_children_spec h' f _ Hsh' Hf' Hfil)
      as (h'' & Hrun' & Hf'' & _).
    exists h''. split; [exact Hrun'|exact Hf''].
Qed.

Lemma check_child_out_of_range_effect_witness :
  ∃ h',
    check_child 10 6 example_fresh = Raise IndexError h' ∧
    (checked_children <$> h' !! 10) = Some {[6%Z]} ∧
    (∀ song, FilterItem_accepts_song 10 song h' = Raise IndexError h').
Proof.
  destruct (check_child_out_of_range_effect 0 example_fresh 10
              (mkTreeItem (FilterItem RATING) (Some 0) 5
                 [11; 12; 13; 14; 15; 16] false false ∅) 6)
    as (h' & Hrun & Hf & _ & Hacc & _).
  - apply (reachable_fresh 0 (catalog example_provider)).
    vm_compute. reflexivity.
  - vm_compute. reflexivity.
  - reflexivity.
  - simpl. lia.
  - exists h'. split; [exact Hrun|]. split; [|exact Hacc].
    rewrite Hf. reflexivity.
Defined.

(** X13: [check_child] accepts a negative index that counts from the
    end: it checks that child but stores the negative index, so the
    checked child's [row_in_parent] is not in [checked_children]. *)
Theorem check_child_negative_index (root : oid) (h : heap) (f : oid)
    (fo : TreeItem) (j : nat) (v : oid) :
  reachable root h → h !! f = Some fo → is_filter (cls fo) = true →
  children fo !! j = Some v →
  ∃ h' vo,
    check_child f (Z.of_nat j - Z.of_nat (length (children fo))) h
      = Ret () h' ∧
    h' !! f = Some (mkTreeItem (cls fo) (parent fo) (row_in_parent fo)
                      (children fo) true true
                      {[(Z.of_nat j - Z.of_nat (length (children fo)))%Z]}) ∧
    h !! v = Some vo ∧ h' !! v = Some (with_checked true vo) ∧
    row_in_parent vo = Z.of_nat j ∧
    row_in_parent vo ∉
      ({[(Z.of_nat j - Z.of_nat (length (children fo)))%Z]} : gset Z).
Proof.
  intros Hr Hf Hfil Hj.
  destruct (reachable_ok root h Hr) as [[Hsh Hck] _].
  set (i := (Z.of_nat j - Z.of_nat (length (children fo)))%Z).
  destruct (check_child_run h f fo i Hsh Hf Hfil) as (h4 & Hf4 & Hlk & Hrun).
  unfold i in Hrun. rewrite (py_getitem_negative _ _ _ Hj) in Hrun. fold i in Hrun.
  destruct (shape_child_of_filter _ _ _ _ _ Hsh Hf Hfil Hj)
    as (vo & Hvo & _ & Hrow & _ & Hvf).
  assert (Hv4 : h4 !! v = Some (with_checked false vo)).
  { rewrite Hlk, Hvo by exact Hvf. simpl.
    rewrite bool_decide_eq_true_2; [reflexivity|].
    eapply list_elem_of_lookup_2. exact Hj. }
  rewrite (update_Some _ _ _ _ Hv4) in Hrun.
  eexists _, vo. split; [exact Hrun|]. split; [|split; [exact Hvo|split; [|split]]].
  - rewrite list_lookup_alter_ne by congruence. exact Hf4.
  - rewrite list_lookup_alter_eq, Hv4. reflexivity.
  - exact Hrow.
  - rewrite Hrow. intros Hin. apply elem_of_singleton in Hin.
    pose proof (lookup_lt_Some _ _ _ Hj). lia.
Qed.

Lemma check_child_negative_index_witness :
  ∃ h' vo,
    check_child 10 (-1) example_fresh = Ret () h' ∧
    example_fresh !! 16 = Some vo ∧ h' !! 16 = Some (with_checked true vo) ∧
    row_in_parent vo = 5%Z.
Proof.
  destruct (check_child_negative_index 0 example_fresh 10
              (mkTreeItem (FilterItem RATING) (Some 0) 5
                 [11; 12; 13; 14; 15; 16] false false ∅) 5 16)
    as (h' & vo & Hrun & _ & Hvo & Hv' & Hrow & _).
  - apply (reachable_fresh 0 (catalog example_provider)).
    vm_compute. reflexivity.
  - vm_compute. reflexivity.
  - reflexivity.
  - reflexivity.
  - exists h', vo. repeat split; assumption.
Defined.

End EdgeFacts.

(** * Appending rows *)

Section AddChildFacts.
Import Song Match Tree Checkable.

(** X14: [add_child] on a root or filter row and a distinct second row
    appends the child at the end of the parent's children, points the
    child at the parent, and sets its [row_in_parent] to the position it
    went to; the children that were there keep their positions and no
    other row changes.  The child is not taken out of the children of a
    parent it had before.  On a variant row the call raises
    [AttributeError] and nothing changes. *)
Theorem add_child_effect (h : heap) (p c : oid) (po co : TreeItem) :
  h !! p = Some po → h !! c = Some co → p ≠ c →
  (has_add_child (cls po) = true →
   ∃ h',
     add_child p c h = Ret () h' ∧ length h' = length h ∧
     h' !! p = Some (with_children (children po ++ [c]) po) ∧
     h' !! c = Some (with_row_in_parent (Z.of_nat (length (children po)))
                       (with_parent (Some p) co)) ∧
     (children po ++ [c]) !! length (children po) = Some c ∧
     (∀ i x, children po !! i = Some x →
             (children po ++ [c]) !! i = Some x) ∧
     (∀ o, o ≠ p → o ≠ c → h' !! o = h !! o)) ∧
  (is_variant (cls po) = true →
   add_child p c h = Raise AttributeError h).
Proof.
  intros Hp Hc Hpc. unfold add_child.
  rewrite (bind_Ret _ _ _ _ _ (load_Some _ _ _ Hp)).
  split.
  2:{ intros Hvar. destruct (cls po); try discriminate. reflexivity. }
  intros Hk. rewrite Hk.
  rewrite (bind_Ret _ _ _ _ _ (update_Some _ _ _ _ Hc)).
  set (h1 := alter (with_parent (Some p)) c h).
  assert (Hp1 : h1 !! p = Some po).
  { unfold h1. rewrite list_lookup_alter_ne by congruence. exact Hp. }
  assert (Hc1 : h1 !! c = Some (with_parent (Some p) co)).
  { unfold h1. rewrite list_lookup_alter_eq, Hc. reflexivity. }
  rewrite (bind_Ret _ _ _ _ _ (load_Some _ _ _ Hp1)).
  rewrite (bind_Ret _ _ _ _ _ (update_Some _ _ _ _ Hc1)).
  set (h2 := alter (with_row_in_parent (Z.of_nat (length (children po)))) c h1).
  assert (Hp2 : h2 !! p = Some po).
  { unfold h2. rewrite list_lookup_alter_ne by congruence. exact Hp1. }
  rewrite (bind_Ret _ _ _ _ _ (load_Some _ _ _ Hp2)).
  rewrite (update_Some _ _ _ _ Hp2).
  eexists. split; [reflexivity|]. split; [|split; [|split; [|split; [|split]]]].
  - unfold h2, h1. rewrite !length_alter. reflexivity.
  - rewrite list_lookup_alter_eq, Hp2. reflexivity.
  - rewrite list_lookup_alter_ne by congruence.
    unfold h2. rewrite list_lookup_alter_eq, Hc1. reflexivity.
  - apply list_lookup_middle. reflexivity.
  - intros i x Hi. apply lookup_app_l_Some, Hi.
  - intros o Hop Hoc. unfold h2, h1.
    rewrite !list_lookup_alter_ne by congruence. reflexivity.
Qed.

Lemma add_child_effect_witness :
  (∃ h',
     add_child 4 2 example_fresh = Ret () h' ∧
     (children <$> h' !! 4) = Some [2] ∧
     (children <$> h' !! 1) = Some [2; 3] ∧
     (parent <$> h' !! 2) = Some (Some 4)) ∧
  add_child 2 3 example_fresh = Raise AttributeError example_fresh.
Proof.
  split.
  - destruct (add_child_effect example_fresh 4 2
                (mkTreeItem (FilterItem TITLE) (Some 0) 1 [] false false ∅)
                (mkTreeItem (VariantItem (SongArtistMatch "Foo")) (Some 1) 0
                   [] false true ∅))
      as [Hok _].
    + vm_compute. reflexivity.
    + vm_compute. reflexivity.
    + lia.
    + destruct (Hok eq_refl) as (h' & Hrun & _ & Hp & Hc & _ & _ & Hrest).
      exists h'. split; [exact Hrun|]. rewrite Hp, Hc.
      rewrite (Hrest 1) by lia. repeat split.
  - destruct (add_child_effect example_fresh 2 3
                (mkTreeItem (VariantItem (SongArtistMatch "Foo")) (Some 1) 0
                   [] false true ∅)
                (mkTreeItem (VariantItem (SongArtistMatch "Baz")) (Some 1) 1
                   [] false true ∅))
      as [_ Hraise].
    + vm_compute. reflexivity.
    + vm_compute. reflexivity.
    + lia.
    + exact (Hraise eq_refl).
Defined.

(** X15: creating a row and appending it with [add_child] below a row of
    the right class keeps a well-shaped tree well shaped; the new row gets
    the next identity and becomes the last child. *)
Theorem add_child_new_keeps_shape (h : heap) (p : oid) (po x : TreeItem) :
  shape_ok h → h !! p = Some po →
  parent_class_ok (cls x) (cls po) = true → children x = [] →
  ∃ h',
    (c ← alloc x; add_child p c) h = Ret () h' ∧
    shape_ok h' ∧ length h' = S (length h) ∧
    (∃ po', h' !! p = Some po' ∧
            children po' = children po ++ [length h]) ∧
    (∃ x', h' !! length h = Some x' ∧ cls x' = cls x ∧
           parent x' = Some p ∧
           row_in_parent x' = Z.of_nat (length (children po))).
Proof.
  intros Hsh Hp Hcls Hkids.
  exists (attach h p po x). split.
  { rewrite bind_eq. unfold alloc.
    apply add_child_new; [exact Hp|].
    eapply has_add_child_parent. exact Hcls. }
  split; [apply attach_shape; assumption|]. split.
  { unfold attach. rewrite length_alter, length_app. simpl. lia. }
  split.
  - eexists. split; [apply attach_lookup_parent, Hp|]. reflexivity.
  - eexists. split; [apply attach_lookup_new, Hp|]. repeat split.
Qed.

Lemma add_child_new_keeps_shape_witness :
  ∃ h',
    (c ← alloc (mkTreeItem (VariantItem (SongTitleMatch "Bar")) (Some 4) 0 []
                  false true ∅);
     add_child 4 c) example_fresh = Ret () h' ∧
    shape_ok h' ∧ length h' = 25.
Proof.
  destruct (add_child_new_keeps_shape example_fresh 4
              (mkTreeItem (FilterItem TITLE) (Some 0) 1 [] false false ∅)
              (mkTreeItem (VariantItem (SongTitleMatch "Bar")) (Some 4) 0 []
                 false true ∅))
    as (h' & Hrun & Hsh & Hlen & _).
  - apply (reachable_ok 0).
    apply (reachable_fresh 0 (catalog example_provider)).
    vm_compute. reflexivity.
  - vm_compute. reflexivity.
  - reflexivity.
  - reflexivity.
  - exists h'. split; [exact Hrun|]. split; [exact Hsh|]. rewrite Hlen.
    vm_compute. reflexivity.
Defined.

End AddChildFacts.

(** * More on the check marks *)

Section MoreStateMachine.
Import Song Match Tree Checkable.

Lemma target_filter_variant (h : heap) (v f : oid) (vo : TreeItem) :
  h !! v = Some vo → is_variant (cls vo) = true → parent vo = Some f →
  target_filter h v = Some f.
Proof.
  intros Hv Hvar Hpar. unfold target_filter. rewrite Hv. simpl.
  destruct (cls vo); try discriminate. exact Hpar.
Qed.

(** X16: on a reachable state, checking a variant of an unconstrained
    filter and toggling it again gives back the very heap the two calls
    started from. *)
Theorem toggle_twice_restores (root : oid) (h : heap) (v : oid)
    (vo : TreeItem) (f : oid) (fo : TreeItem) :
  reachable root h → h !! v = Some vo → is_variant (cls vo) = true →
  parent vo = Some f → h !! f = Some fo → checked_children fo = ∅ →
  ∃ h1, toggle_checked v h = Ret () h1 ∧ toggle_checked v h1 = Ret () h.
Proof.
  intros Hr Hv Hvar Hpar Hf Hcc.
  destruct (reachable_ok root h Hr) as [Hok _].
  destruct Hok as [Hsh Hck].
  destruct (shape_parent_of_variant h v vo Hsh Hv Hvar)
    as (f' & fo' & i & Hpar' & Hf' & Hfil & Hrow & Hi & Hvf).
  assert (f' = f) as -> by congruence.
  assert (fo' = fo) as -> by congruence.
  assert (Hunchecked : ∀ c co, c ∈ children fo → h !! c = Some co →
                                checked co = false).
  { intros c co Hc Hco. apply list_elem_of_lookup_1 in Hc as [j Hj].
    destruct (shape_child_of_filter _ _ _ _ _ Hsh Hf Hfil Hj)
      as (co' & Hco' & Hcpar & _ & Hcvar & _).
    assert (co' = co) as -> by congruence.
    destruct (checked co) eqn:Hchk; [|reflexivity].
    apply (checks_variant _ Hck c co f fo Hco Hcvar Hcpar Hf) in Hchk.
    rewrite Hcc in Hchk. apply not_elem_of_empty in Hchk. destruct Hchk. }
  assert (Hvchk : checked vo = false).
  { apply (Hunchecked v vo); [|exact Hv].
    eapply list_elem_of_lookup_2. exact Hi. }
  destruct (VariantItem_toggle_unchecked h v vo (conj Hsh Hck) Hv Hvar Hvchk)
    as (f1 & fo1 & i1 & h1 & Hpar1 & Hf1 & _ & _ & _ & Hrun1 & Hok1 & Hf1' & Hv1 & Hsib).
  assert (f1 = f) as -> by congruence.
  assert (fo1 = fo) as -> by congruence.
  exists h1. split; [exact Hrun1|].
  rewrite (VariantItem_toggle_checked_eq h1 v f _ Hv1 Hvar Hpar eq_refl).
  destruct (uncheck_children_spec h1 f _ (proj1 Hok1) Hf1' Hfil)
    as (h2 & Hrun2 & Hf2 & Hlk2).
  rewrite Hrun2. f_equal. apply list_eq. intros o.
  destruct (decide (o = f)) as [->|Hof].
  { rewrite Hf2, Hf. simpl.
    destruct (checks_filter _ Hck _ _ Hf Hfil)
      as [(_ & Hc & Hk)|(j & Hj & _)].
    - destruct fo; simpl in *; subst; reflexivity.
    - rewrite Hcc in Hj.
      assert (Hin : Z.of_nat j ∈ (∅ : gset Z))
        by (rewrite Hj; apply elem_of_singleton; reflexivity).
      apply not_elem_of_empty in Hin. destruct Hin. }
  rewrite (Hlk2 o Hof). simpl children.
  destruct (decide (o ∈ children fo)) as [Hin|Hnin].
  - rewrite bool_decide_eq_true_2 by exact Hin.
    destruct (decide (o = v)) as [->|Hov].
    + rewrite Hv1, Hv. simpl. f_equal.
      destruct vo; simpl in *; subst; reflexivity.
    + destruct (Hsib o Hin Hov) as (co & Hco & Hco1).
      rewrite Hco1, Hco. simpl. f_equal.
      pose proof (Hunchecked o co Hin Hco) as Hc.
      destruct co; simpl in *; subst; reflexivity.
  - rewrite bool_decide_eq_false_2 by exact Hnin.
    pose proof (toggle_checked_framed v h) as (_ & _ & Hout).
    rewrite Hrun1 in Hout. simpl in Hout.
    rewrite (Hout o).
    + destruct (h !! o); reflexivity.
    + rewrite (target_filter_variant h v f vo Hv Hvar Hpar).
      intros (t & Ht & [->|(x & Hx & Hox)]).
      * congruence.
      * assert (t = f) as -> by congruence.
        assert (x = fo) as -> by congruence. contradiction.
Qed.

Lemma toggle_twice_restores_witness :
  ∃ h1, toggle_checked 13 example_fresh = Ret () h1 ∧
        toggle_checked 13 h1 = Ret () example_fresh.
Proof.
  apply (toggle_twice_restores 0 example_fresh 13
           (mkTreeItem (VariantItem (Rating R_2)) (Some 10) 2 [] false true ∅)
           10
           (mkTreeItem (FilterItem RATING) (Some 0) 5 [11; 12; 13; 14; 15; 16]
              false false ∅)).
  - apply (reachable_fresh 0 (catalog example_provider)).
    vm_compute. reflexivity.
  - vm_compute. reflexivity.
  - reflexivity.
  - reflexivity.
  - vm_compute. reflexivity.
  - reflexivity.
Defined.

(** X17: toggling a filter is idempotent on reachable states: a second
    toggle right after the first changes nothing. *)
Theorem FilterItem_toggle_idempotent (root : oid) (h : heap) (f : oid)
    (fo : TreeItem) :
  reachable root h → h !! f = Some fo → is_filter (cls fo) = true →
  ∃ h1, toggle_checked f h = Ret () h1 ∧ toggle_checked f h1 = Ret () h1.
Proof.
  intros Hr Hf Hfil. destruct (reachable_ok root h Hr) as [Hok _].
  rewrite (FilterItem_toggle_checked_eq h f fo Hf Hfil).
  destruct (checked fo) eqn:Hc.
  - destruct (uncheck_children_clears h f fo Hok Hf Hfil)
      as (h1 & Hrun & _ & Hf1 & _).
    exists h1. split; [exact Hrun|].
    rewrite (FilterItem_toggle_checked_eq h1 f _ Hf1 Hfil). reflexivity.
  - exists h. split; [reflexivity|].
    rewrite (FilterItem_toggle_checked_eq h f fo Hf Hfil), Hc. reflexivity.
Qed.

Lemma FilterItem_toggle_idempotent_witness :
  ∃ h1, toggle_checked 10 example_rated = Ret () h1 ∧
        toggle_checked 10 h1 = Ret () h1.
Proof.
  apply (FilterItem_toggle_idempotent 0 example_rated 10
           (mkTreeItem (FilterItem RATING) (Some 0) 5 [11; 12; 13; 14; 15; 16]
              true true {[2%Z]})).
  - unfold example_rated. apply reachable_toggle.
    + apply (reachable_fresh 0 (catalog example_provider)).
      vm_compute. reflexivity.
    + vm_compute. eexists. reflexivity.
  - vm_compute. reflexivity.
  - reflexivity.
Defined.

(** Every reachable state is led to by toggles from the freshly built
    tree it started as. *)
Lemma reachable_toggled (root : oid) (h : heap) :
  reachable root h →
  ∃ cat h0, build_tree cat [] = Ret root h0 ∧ toggled_from h0 h.
Proof.
  induction 1 as [cat h Hb|h o Hr (cat & h0 & Hb & Ht) Ho].
  - exists cat, h. split; [exact Hb|apply toggled_none].
  - exists cat, h0. split; [exact Hb|]. apply toggled_step, Ht.
Qed.

(** X18: whatever toggles are applied to a tree, on whichever rows and
    whether or not a call raises, the tree keeps the rows and the shape it
    had before the first of them: the heap keeps its length and every row
    its class, data, parent, position and children.  When the tree the
    toggles started from is a freshly built one, these are the states
    reachable from it. *)
Theorem toggles_keep_shape (h0 h : heap) :
  toggled_from h0 h →
  length h = length h0 ∧
  (∀ o, shape_of <$> h !! o = shape_of <$> h0 !! o) ∧
  (∀ cat root, build_tree cat [] = Ret root h0 →
     reachable root h ∧ shape_ok h).
Proof.
  intros Ht.
  assert (Hfr : length h = length h0 ∧
                ∀ o, shape_of <$> h !! o = shape_of <$> h0 !! o).
  { induction Ht as [|h o Ht [Hlen Hs]]; [split; reflexivity|].
    destruct (toggle_checked_framed o h) as (Hl & Hsh & _).
    split; [congruence|]. intros o'. rewrite Hsh. apply Hs. }
  destruct Hfr as [Hlen Hs]. split; [exact Hlen|]. split; [exact Hs|].
  intros cat root Hb.
  assert (Hr : reachable root h).
  { clear Hlen Hs. induction Ht as [|h o Ht IH].
    - apply (reachable_fresh root cat), Hb.
    - destruct (lookup_lt_is_Some h o) as [_ Hsome].
      destruct (decide (o < length h)) as [Hlt|Hge].
      + apply reachable_toggle; [exact IH|apply Hsome, Hlt].
      + unfold toggle_checked. rewrite bind_eq. unfold load.
        rewrite (lookup_ge_None_2 h o) by lia. exact IH. }
  split; [exact Hr|]. apply (reachable_ok root h Hr).
Qed.

Lemma toggles_keep_shape_witness :
  length example_rated = length example_fresh ∧
  (∀ o, shape_of <$> example_rated !! o = shape_of <$> example_fresh !! o) ∧
  (∀ cat root, build_tree cat [] = Ret root example_fresh →
     reachable root example_rated ∧ shape_ok example_rated).
Proof.
  apply (toggles_keep_shape example_fresh example_rated).
  unfold example_rated. apply toggled_step, toggled_none.
Defined.

End MoreStateMachine.

(** * Flags that never change, and [is_checkable] *)

Section CheckableFacts.
Import Song Match Tree Checkable.

Lemma row_flags_with_checked_false (x : TreeItem) :
  row_flags_ok x → row_flags_ok (with_checked false x).
Proof. unfold row_flags_ok. simpl. destruct (cls x); tauto. Qed.

Lemma row_flags_unmark (o : oid) (l : list oid) (h : heap) (y' : TreeItem) :
  flags_ok h →
  (if bool_decide (o ∈ l) then with_checked false else id) <$> h !! o
    = Some y' →
  row_flags_ok y'.
Proof.
  intros Hfl Hy. destruct (h !! o) as [y|] eqn:Ho; [|discriminate].
  injection Hy as <-. specialize (Hfl o y Ho).
  destruct (bool_decide (o ∈ l)); [|exact Hfl].
  apply row_flags_with_checked_false, Hfl.
Qed.

Lemma uncheck_children_flags (h h' : heap) (f : oid) (fo : TreeItem) :
  shape_ok h → flags_ok h → h !! f = Some fo → is_filter (cls fo) = true →
  uncheck_children f h = Ret () h' → flags_ok h'.
Proof.
  intros Hsh Hfl Hf Hfil Hrun.
  destruct (uncheck_children_spec h f fo Hsh Hf Hfil) as (h1 & Hrun1 & Hf1 & Hlk).
  assert (h1 = h') as -> by congruence.
  intros o y' Ho. destruct (decide (o = f)) as [->|Hof].
  - rewrite Hf1 in Ho. injection Ho as <-. unfold row_flags_ok. simpl.
    destruct (cls fo); try discriminate. exact I.
  - rewrite (Hlk o Hof) in Ho. eapply row_flags_unmark; eassumption.
Qed.

Lemma check_child_flags (h h' : heap) (f : oid) (fo : TreeItem) (i : nat)
    (v : oid) :
  shape_ok h → flags_ok h → h !! f = Some fo → is_filter (cls fo) = true →
  children fo !! i = Some v →
  check_child f (Z.of_nat i) h = Ret () h' → flags_ok h'.
Proof.
  intros Hsh Hfl Hf Hfil Hv Hrun.
  destruct (check_child_spec h f fo i v Hsh Hf Hfil Hv)
    as (h1 & Hrun1 & Hf1 & (vo & Hvo & Hv1) & Hlk).
  assert (h1 = h') as -> by congruence.
  destruct (shape_child_of_filter _ _ _ _ _ Hsh Hf Hfil Hv)
    as (vo' & Hvo' & _ & _ & Hvar & _).
  assert (vo' = vo) as -> by congruence.
  intros o y' Ho. destruct (decide (o = f)) as [->|Hof].
  - rewrite Hf1 in Ho. injection Ho as <-. unfold row_flags_ok. simpl.
    destruct (cls fo); try discriminate. exact I.
  - destruct (decide (o = v)) as [->|Hov].
    + rewrite Hv1 in Ho. injection Ho as <-.
      pose proof (Hfl v vo Hvo) as Hrow. unfold row_flags_ok in *. simpl.
      destruct (cls vo); try discriminate. exact Hrow.
    + rewrite (Hlk o Hof Hov) in Ho. eapply row_flags_unmark; eassumption.
Qed.

Lemma toggle_checked_flags (h h' : heap) (o : oid) :
  tree_ok h → flags_ok h → toggle_checked o h = Ret () h' → flags_ok h'.
Proof.
  intros Hok Hfl. unfold toggle_checked. rewrite bind_eq. unfold load.
  destruct (h !! o) as [x|] eqn:Hx; [|discriminate].
  destruct (cls x) as [|d|m] eqn:Hcls.
  - intros [= <-]. exact Hfl.
  - unfold FilterItem_toggle_checked.
    rewrite (bind_Ret _ _ _ _ _ (load_Some _ _ _ Hx)).
    destruct (checked x).
    + apply (uncheck_children_flags h h' o x (proj1 Hok) Hfl Hx).
      rewrite Hcls. reflexivity.
    + intros [= <-]. exact Hfl.
  - unfold VariantItem_toggle_checked.
    rewrite (bind_Ret _ _ _ _ _ (load_Some _ _ _ Hx)).
    destruct (shape_parent_of_variant h o x (proj1 Hok) Hx)
      as (f & fo & i & Hpar & Hf & Hfil & Hrow & Hi & _).
    { rewrite Hcls. reflexivity. }
    rewrite Hpar. destruct (checked x).
    + apply (uncheck_children_flags h h' f fo (proj1 Hok) Hfl Hf Hfil).
    + rewrite Hrow.
      apply (check_child_flags h h' f fo i o (proj1 Hok) Hfl Hf Hfil Hi).
Qed.

Lemma attach_flags (h : heap) (p : oid) (po x : TreeItem) :
  flags_ok h → h !! p = Some po → row_flags_ok x →
  flags_ok (attach h p po x).
Proof.
  intros Hfl Hp Hx o y Ho.
  apply (attach_lookup_inv h p po x Hp) in Ho
    as [[-> ->]|[[-> ->]|(_ & _ & Ho)]].
  - exact (Hfl p po Hp).
  - exact Hx.
  - exact (Hfl o y Ho).
Qed.

Lemma add_variants_flags (vs : list SongMatch) (h h' : heap) (item : oid)
    (io : TreeItem) :
  flags_ok h → h !! item = Some io → is_filter (cls io) = true →
  add_variants item vs h = Ret () h' → flags_ok h'.
Proof.
  revert h io. induction vs as [|m vs IH]; intros h io Hfl Hi Hfil.
  - intros [= <-]. exact Hfl.
  - unfold add_variants. cbn [for_each]. rewrite bind_eq.
    unfold new_VariantItem at 1. rewrite bind_eq. unfold alloc at 1.
    set (x := mkTreeItem (VariantItem m) (Some item) 0 [] false true ∅).
    rewrite (add_child_new h item io x Hi (has_add_child_filter _ Hfil)).
    destruct (attach_keeps_class h item io x Hi item io Hi)
      as (io' & Hi' & Hc').
    apply (IH (attach h item io x) io'); [|exact Hi'|congruence].
    apply attach_flags; [exact Hfl|exact Hi|reflexivity].
Qed.

Lemma add_filters_flags (cat : list (Filter * list SongMatch)) (h h' : heap)
    (root : oid) (ro : TreeItem) :
  shape_ok h → unchecked h → flags_ok h →
  h !! root = Some ro → cls ro = RootItem →
  for_each cat (add_filter root) h = Ret () h' → flags_ok h'.
Proof.
  revert h ro. induction cat as [|entry cat IH];
    intros h ro Hsh Hun Hfl Hr Hroot.
  - intros [= <-]. exact Hfl.
  - cbn [for_each].
    destruct (add_filter_ok entry h root ro Hsh Hun Hr Hroot)
      as (h1 & Hrun & Hsh1 & Hun1 & Hk1).
    rewrite (bind_Ret _ _ _ _ _ Hrun).
    destruct (Hk1 _ _ Hr) as (ro1 & Hr1 & Hc1).
    apply (IH h1 ro1); try assumption; [|congruence].
    revert Hrun. unfold add_filter, new_FilterItem.
    rewrite bind_eq. unfold alloc at 1.
    set (x := mkTreeItem (FilterItem entry.1) (Some root) 0 [] false false ∅).
    assert (Hk : has_add_child (cls ro) = true)
      by (rewrite Hroot; reflexivity).
    rewrite bind_eq, (add_child_new h root ro x Hr Hk).
    apply (add_variants_flags entry.2 (attach h root ro x) h1 (length h)
             (attached root ro x)).
    + apply attach_flags; [exact Hfl|exact Hr|exact I].
    + apply attach_lookup_new, Hr.
    + reflexivity.
Qed.

Lemma reachable_flags (root : oid) (h : heap) :
  reachable root h → flags_ok h.
Proof.
  induction 1 as [cat h Hb|h o Hr IH Ho].
  - revert Hb. unfold build_tree, new_RootItem. rewrite bind_eq.
    unfold alloc. simpl length. simpl app.
    set (r := mkTreeItem RootItem None 0 [] false false ∅).
    rewrite bind_eq.
    destruct (for_each cat (add_filter 0) [r]) as [[] h1|e h1] eqn:Hrun;
      [|discriminate].
    intros [= <- <-].
    apply (add_filters_flags cat [r] h1 0 r); try assumption.
    + split.
      * intros p po i c Hp Hc. destruct p; simpl in Hp; [|discriminate].
        injection Hp as <-. simpl in Hc. discriminate.
      * intros c co Hc Hnr. destruct c; simpl in Hc; [|discriminate].
        injection Hc as <-. simpl in Hnr. discriminate.
    + intros o y Ho. destruct o; simpl in Ho; [|discriminate].
      injection Ho as <-. repeat split.
    + intros o y Ho. destruct o; simpl in Ho; [|discriminate].
      injection Ho as <-. split; reflexivity.
    + reflexivity.
    + reflexivity.
  - destruct (reachable_ok root h Hr) as [Hok _].
    destruct (toggle_checked_ok h o Hok Ho) as (h' & Hrun & _).
    rewrite Hrun. simpl.
    apply (toggle_checked_flags h h' o Hok IH Hrun).
Qed.

(** X19: on every reachable state [is_checkable] agrees with the
    [checkable] attribute of a filter or variant row: a variant is always
    checkable, a filter exactly while one of its variants is checked.  The
    root stays unchecked and not checkable, and has no such method. *)
Theorem is_checkable_agrees (root : oid) (h : heap) (o : oid)
    (x : TreeItem) :
  reachable root h → h !! o = Some x →
  match cls x with
  | RootItem =>
      is_checkable o h = Raise AttributeError h ∧
      checked x = false ∧ checkable x = false
  | FilterItem _ =>
      is_checkable o h = Ret (checkable x) h ∧
      (checkable x = true ↔ checked_children x ≠ ∅)
  | VariantItem _ =>
      is_checkable o h = Ret (checkable x) h ∧ checkable x = true
  end.
Proof.
  intros Hr Hx. pose proof (reachable_flags root h Hr o x Hx) as Hfl.
  destruct (reachable_ok root h Hr) as [[_ Hck] _].
  unfold is_checkable. rewrite (bind_Ret _ _ _ _ _ (load_Some _ _ _ Hx)).
  unfold row_flags_ok in Hfl.
  destruct (cls x) as [|d|m] eqn:Hcls.
  - split; [reflexivity|exact Hfl].
  - assert (Hfil : is_filter (cls x) = true) by (rewrite Hcls; reflexivity).
    unfold FilterItem_is_checkable.
    rewrite (bind_Ret _ _ _ _ _ (as_filter_Some _ _ _ Hx Hfil)).
    destruct (checks_filter _ Hck _ _ Hx Hfil)
      as [(Hcc & _ & Hk)|(i & Hcc & _ & _ & Hk)]; rewrite Hk, Hcc.
    + rewrite bool_decide_eq_true_2 by reflexivity.
      split; [reflexivity|]. split; [discriminate|]. intros Hne. contradiction.
    + assert (Hne : ({[Z.of_nat i]} : gset Z) ≠ ∅).
      { intros He. assert (Hin : Z.of_nat i ∈ (∅ : gset Z))
          by (rewrite <- He; apply elem_of_singleton; reflexivity).
        apply not_elem_of_empty in Hin. exact Hin. }
      rewrite bool_decide_eq_false_2 by exact Hne.
      split; [reflexivity|]. split; [intros _; exact Hne|reflexivity].
  - unfold VariantItem_is_checkable. rewrite Hfl. split; reflexivity.
Qed.

Lemma is_checkable_agrees_witness :
  is_checkable 10 example_rated = Ret true example_rated ∧
  (true = true ↔ ({[2%Z]} : gset Z) ≠ ∅).
Proof.
  assert (Hr : reachable 0 example_rated).
  { unfold example_rated. apply reachable_toggle.
    - apply (reachable_fresh 0 (catalog example_provider)).
      vm_compute. reflexivity.
    - vm_compute. eexists. reflexivity. }
  assert (Hx : example_rated !! 10 =
               Some (mkTreeItem (FilterItem RATING) (Some 0) 5
                       [11; 12; 13; 14; 15; 16] true true {[2%Z]})).
  { vm_compute. reflexivity. }
  exact (is_checkable_agrees 0 example_rated 10 _ Hr Hx).
Defined.

End CheckableFacts.

(** * Toggling and querying together *)

Section ToggleAndQuery.
Import Song Match Tree Checkable.

(** A toggle leaves every filter it does not target, and the variants of
    that filter, as they were. *)
Lemma toggle_other_filter (h : heap) (o g : oid) (go : TreeItem) :
  shape_ok h → h !! g = Some go → is_filter (cls go) = true →
  target_filter h o ≠ Some g →
  final_heap (toggle_checked o h) !! g = Some go ∧
  ∀ c, c ∈ children go → final_heap (toggle_checked o h) !! c = h !! c.
Proof.
  intros Hsh Hg Hfil Hne.
  destruct (toggle_checked_framed o h) as (_ & _ & Hout).
  assert (Hsub : ∀ c, in_subtree h (target_filter h o) c →
            ∃ t to_, target_filter h o = Some t ∧ h !! t = Some to_ ∧
                     is_filter (cls to_) = true ∧
                     (c = t ∨ c ∈ children to_)).
  { intros c (t & Ht & Hc).
    destruct (target_filter_is_filter h o t Hsh Ht) as (to_ & Hto & Htfil).
    exists t, to_. repeat (split; [assumption|]).
    destruct Hc as [->|(to' & Hto' & Hc)]; [left; reflexivity|right].
    assert (to' = to_) as -> by congruence. exact Hc. }
  split.
  - rewrite Hout; [exact Hg|]. intros Hin.
    destruct (Hsub g Hin) as (t & to_ & Ht & Hto & Htfil & [->|Hc]).
    + congruence.
    + apply list_elem_of_lookup_1 in Hc as [j Hj].
      destruct (shape_child_of_filter _ _ _ _ _ Hsh Hto Htfil Hj)
        as (co & Hco & _ & _ & Hcvar & _).
      assert (co = go) as -> by congruence.
      destruct (cls go); simpl in *; congruence.
  - intros c Hc. apply Hout.
    apply list_elem_of_lookup_1 in Hc as [j Hj].
    destruct (shape_child_of_filter _ _ _ _ _ Hsh Hg Hfil Hj)
      as (co & Hco & Hcpar & _ & Hcvar & _).
    intros Hin.
    destruct (Hsub c Hin) as (t & to_ & Ht & Hto & Htfil & [->|Hc]).
    + assert (co = to_) as -> by congruence.
      destruct (cls to_); simpl in *; congruence.
    + apply list_elem_of_lookup_1 in Hc as [j' Hj'].
      destruct (shape_children _ Hsh _ _ _ _ Hto Hj') as (co' & Hco' & Hpar' & _).
      assert (co' = co) as -> by congruence.
      apply Hne. congruence.
Qed.

(** X20: once an unchecked variant has been toggled, its filter accepts
    exactly the songs the predicate of that variant matches, and every
    other filter answers as it did before the toggle. *)
Theorem check_then_accepts (root : oid) (h : heap) (v : oid)
    (vo : TreeItem) (m : SongMatch) :
  reachable root h → h !! v = Some vo → cls vo = VariantItem m →
  checked vo = false →
  ∃ f h',
    parent vo = Some f ∧ toggle_checked v h = Ret () h' ∧
    ∀ song,
      (∃ b, matches_song m song = Ok b ∧
            FilterItem_accepts_song f song h' = Ret b h') ∧
      (∀ g go, h !! g = Some go → is_filter (cls go) = true → g ≠ f →
         ∃ b, FilterItem_accepts_song g song h = Ret b h ∧
              FilterItem_accepts_song g song h' = Ret b h').
Proof.
  intros Hr Hv Hcls Hchk.
  assert (Hvar : is_variant (cls vo) = true) by (rewrite Hcls; reflexivity).
  destruct (reachable_ok root h Hr) as [Hok _].
  destruct (VariantItem_toggle_unchecked h v vo Hok Hv Hvar Hchk)
    as (f & fo & i & h' & Hpar & Hf & Hfil & Hrow & Hi & Hrun & Hok' & Hf' & Hv' & _).
  exists f, h'. split; [exact Hpar|]. split; [exact Hrun|]. intros song.
  split.
  - destruct (matches_song_total m song) as [b Hb].
    exists b. split; [exact Hb|].
    destruct (FilterItem_accepts_song_any_set h' f _ song (proj1 Hok') Hf' Hfil
                (checks_ok_in_bounds h' f _ (proj2 Hok') Hf' Hfil))
      as (b' & Hb' & HP).
    assert (b' = b) as ->; [|exact Hb'].
    simpl in HP. rewrite Hrow in HP.
    destruct b.
    + apply HP. right. exists (Z.of_nat i), v, (with_checked true vo), m.
      split; [apply elem_of_singleton; reflexivity|].
      split; [apply py_getitem_nat, Hi|]. split; [exact Hv'|].
      split; [exact Hcls|exact Hb].
    + destruct b'; [|reflexivity].
      destruct (proj1 HP eq_refl) as [He|(i' & v' & vo' & m' & Hi' & Hget & Hvo' & Hcls' & Hm')].
      * assert (Hin : Z.of_nat i ∈ (∅ : gset Z))
          by (rewrite <- He; apply elem_of_singleton; reflexivity).
        apply not_elem_of_empty in Hin. destruct Hin.
      * apply elem_of_singleton in Hi'. subst i'.
        rewrite (py_getitem_nat _ _ _ Hi) in Hget. injection Hget as <-.
        rewrite Hv' in Hvo'. injection Hvo' as <-. simpl in Hcls'.
        assert (m' = m) as -> by congruence. congruence.
  - intros g go Hg Hgfil Hgf.
    assert (Hne : target_filter h v ≠ Some g).
    { rewrite (target_filter_variant h v f vo Hv Hvar Hpar). congruence. }
    destruct (toggle_other_filter h v g go (proj1 Hok) Hg Hgfil Hne)
      as [Hg' Hkids].
    rewrite Hrun in Hg', Hkids. simpl in Hg', Hkids.
    destruct (FilterItem_accepts_song_any_set h g go song (proj1 Hok) Hg Hgfil
                (checks_ok_in_bounds h g go (proj2 Hok) Hg Hgfil))
      as (b & Hb & HP).
    destruct (FilterItem_accepts_song_any_set h' g go song (proj1 Hok') Hg' Hgfil
                (checks_ok_in_bounds h' g go (proj2 Hok') Hg' Hgfil))
      as (b' & Hb' & HP').
    exists b. split; [exact Hb|].
    assert (b' = b) as ->; [|exact Hb'].
    assert (Hiff : b' = true ↔ b = true).
    { rewrite HP, HP'. split.
      - intros [He|(i' & v' & vo' & m' & Hi' & Hget & Hvo' & Hrest)];
          [left; exact He|right].
        exists i', v', vo', m'. split; [exact Hi'|]. split; [exact Hget|].
        split; [|exact Hrest].
        rewrite <- (Hkids v'); [exact Hvo'|].
        eapply py_getitem_Ok. exact Hget.
      - intros [He|(i' & v' & vo' & m' & Hi' & Hget & Hvo' & Hrest)];
          [left; exact He|right].
        exists i', v', vo', m'. split; [exact Hi'|]. split; [exact Hget|].
        split; [|exact Hrest].
        rewrite (Hkids v'); [exact Hvo'|].
        eapply py_getitem_Ok. exact Hget. }
    destruct b, b'; try reflexivity.
    + apply Hiff. reflexivity.
    + symmetry. apply Hiff. reflexivity.
Qed.

Lemma check_then_accepts_witness :
  ∃ f h',
    Some 10 = Some f ∧ toggle_checked 14 example_rated = Ret () h' ∧
    ∀ song,
      (∃ b, matches_song (Rating R_3) song = Ok b ∧
            FilterItem_accepts_song f song h' = Ret b h') ∧
      (∀ g go, example_rated !! g = Some go → is_filter (cls go) = true →
         g ≠ f →
         ∃ b, FilterItem_accepts_song g song example_rated
                = Ret b example_rated ∧
              FilterItem_accepts_song g song h' = Ret b h').
Proof.
  apply (check_then_accepts 0 example_rated 14
           (mkTreeItem (VariantItem (Rating R_3)) (Some 10) 3 [] false true ∅)
           (Rating R_3)).
  - unfold example_rated. apply reachable_toggle.
    + apply (reachable_fresh 0 (catalog example_provider)).
      vm_compute. reflexivity.
    + vm_compute. eexists. reflexivity.
  - vm_compute. reflexivity.
  - reflexivity.
  - reflexivity.
Defined.

(** X21: [accepts_song] is a disjunction over the whole set of checked
    indices, also on states with several rows checked at once: on any
    well-shaped tree and any set of indices inside the tuple of children
    it returns, and returns true iff the set is empty or one of the
    variants it names matches the song. *)
Theorem accepts_song_multi_select (h : heap) (f : oid) (fo : TreeItem)
    (song : SongData) :
  shape_ok h → h !! f = Some fo → is_filter (cls fo) = true →
  (∀ i, i ∈ checked_children fo →
        (0 ≤ i < Z.of_nat (length (children fo)))%Z) →
  ∃ b, FilterItem_accepts_song f song h = Ret b h ∧
       (b = true ↔
        checked_children fo = ∅ ∨
        ∃ i v vo m, i ∈ checked_children fo ∧
                    children fo !! Z.to_nat i = Some v ∧
                    h !! v = Some vo ∧ cls vo = VariantItem m ∧
                    matches_song m song = Ok true).
Proof.
  intros Hsh Hf Hfil Hin.
  destruct (FilterItem_accepts_song_any_set h f fo song Hsh Hf Hfil Hin)
    as (b & Hb & HP).
  exists b. split; [exact Hb|]. rewrite HP.
  assert (Hget : ∀ i v, i ∈ checked_children fo →
            (py_getitem (children fo) i = Ok v ↔
             children fo !! Z.to_nat i = Some v)).
  { intros i v Hi. specialize (Hin i Hi).
    destruct (lookup_lt_is_Some_2 (children fo) (Z.to_nat i)) as [a Ha];
      [lia|].
    pose proof (py_getitem_nat _ _ _ Ha) as Hg.
    rewrite Z2Nat.id in Hg by lia. rewrite Hg, Ha.
    split; congruence. }
  split.
  - intros [He|(i & v & vo & m & Hi & Hg & Hrest)]; [left; exact He|right].
    exists i, v, vo, m. split; [exact Hi|].
    split; [apply (Hget i v Hi), Hg|exact Hrest].
  - intros [He|(i & v & vo & m & Hi & Hg & Hrest)]; [left; exact He|right].
    exists i, v, vo, m. split; [exact Hi|].
    split; [apply (Hget i v Hi), Hg|exact Hrest].
Qed.

Lemma accepts_song_multi_select_witness :
  ∃ b, FilterItem_accepts_song 10 (song_with 3 50) example_multi
         = Ret b example_multi ∧ b = true.
Proof.
  destruct (accepts_song_multi_select example_multi 10
              (mkTreeItem (FilterItem RATING) (Some 0) 5
                 [11; 12; 13; 14; 15; 16] false false {[1%Z; 3%Z]})
              (song_with 3 50))
    as (b & Hb & HP).
  - apply (shape_ok_framed (λ _, True) example_fresh).
    + unfold example_multi. apply framed_update; [reflexivity|exact I].
    + apply (reachable_ok 0).
      apply (reachable_fresh 0 (catalog example_provider)).
      vm_compute. reflexivity.
  - vm_compute. reflexivity.
  - reflexivity.
  - simpl. intros i Hi. apply elem_of_union in Hi as [Hi|Hi];
      apply elem_of_singleton in Hi; subst i; lia.
  - exists b. split; [exact Hb|]. apply HP. right.
    exists 3%Z, 14,
      (mkTreeItem (VariantItem (Rating R_3)) (Some 10) 3 [] false true ∅),
      (Rating R_3).
    split; [simpl; apply elem_of_union_r, elem_of_singleton; reflexivity|].
    split; [reflexivity|]. split; [vm_compute; reflexivity|].
    split; reflexivity.
Defined.

End ToggleAndQuery.
